(** * go-server-liveness-lab: connection tracker, load generator and
      slow-connection simulator

    A shallow embedding of

      - [internal/metrics/connstate.go]  (module [Metrics]),
      - [cmd/loadgen/main.go]            (module [Loadgen]),
      - [cmd/slowloris/main.go]          (module [Slowloris]),

    followed by the properties established about them.

    Conventions.  Go's [int], [int64], [time.Duration] and [atomic.Int64]
    are 64-bit two's-complement integers: they are modelled as [Z] and
    every arithmetic operation of the source goes through [Int64.wrap].
    The network, the clock, the scheduler and the cancellation channel are
    the environment: their answers are given to the model as explicit
    inputs (scripts), one record per interaction of the source.  Logging
    has no effect on the modelled state and is left out. *)

From Stdlib Require Import ZArith List Ascii String Lia Bool DecimalString.
From stdpp Require Import base option list gmap sorting.
Import ListNotations.
Local Open Scope Z_scope.

(** ** 64-bit signed integers *)

Module Int64.

Definition min_int : Z := - 2 ^ 63.
Definition max_int : Z := 2 ^ 63 - 1.

Definition in_range (z : Z) : Prop := min_int <= z <= max_int.

(** Two's-complement reduction of a mathematical integer. *)
Definition wrap (z : Z) : Z := (z + 2 ^ 63) mod 2 ^ 64 - 2 ^ 63.

Definition add (x y : Z) : Z := wrap (x + y).
Definition sub (x y : Z) : Z := wrap (x - y).
Definition mul (x y : Z) : Z := wrap (x * y).

(** Go's [/] on integers truncates toward zero. *)
Definition quot (x y : Z) : Z := wrap (Z.quot x y).

Definition neg (x : Z) : Z := wrap (- x).

(** The conversion [uint64(x)]. *)
Definition unsigned (x : Z) : Z := x mod 2 ^ 64.

End Int64.

(** ** internal/metrics/connstate.go *)

Module Metrics.

(** The five constants of [http.ConnState], the states net/http reports
    to the hook.  (The type itself is an integer type; calls with other
    values are covered by [TrackConnStateValue] below.) *)
Inductive ConnState : Set :=
| StateNew
| StateActive
| StateIdle
| StateHijacked
| StateClosed.

#[export] Instance ConnState_eq_dec : EqDecision ConnState.
Proof. solve_decision. Defined.

(** Identity of a [net.Conn] value used as a map key. *)
Definition Conn : Set := nat.

Record ConnStateCounter : Type := mkCounter {
  stateNew      : Z;
  stateActive   : Z;
  stateIdle     : Z;
  stateHijacked : Z;
  totalAccepted : Z;
  totalClosed   : Z;
  connStates    : gmap nat ConnState
}.

Definition NewConnStateCounter : ConnStateCounter :=
  mkCounter 0 0 0 0 0 0 ∅.

Definition addNew (d : Z) (c : ConnStateCounter) : ConnStateCounter :=
  mkCounter (Int64.add (stateNew c) d) (stateActive c) (stateIdle c)
            (stateHijacked c) (totalAccepted c) (totalClosed c) (connStates c).
Definition addActive (d : Z) (c : ConnStateCounter) : ConnStateCounter :=
  mkCounter (stateNew c) (Int64.add (stateActive c) d) (stateIdle c)
            (stateHijacked c) (totalAccepted c) (totalClosed c) (connStates c).
Definition addIdle (d : Z) (c : ConnStateCounter) : ConnStateCounter :=
  mkCounter (stateNew c) (stateActive c) (Int64.add (stateIdle c) d)
            (stateHijacked c) (totalAccepted c) (totalClosed c) (connStates c).
Definition addHijacked (d : Z) (c : ConnStateCounter) : ConnStateCounter :=
  mkCounter (stateNew c) (stateActive c) (stateIdle c)
            (Int64.add (stateHijacked c) d) (totalAccepted c) (totalClosed c)
            (connStates c).
Definition addAccepted (d : Z) (c : ConnStateCounter) : ConnStateCounter :=
  mkCounter (stateNew c) (stateActive c) (stateIdle c) (stateHijacked c)
            (Int64.add (totalAccepted c) d) (totalClosed c) (connStates c).
Definition addClosed (d : Z) (c : ConnStateCounter) : ConnStateCounter :=
  mkCounter (stateNew c) (stateActive c) (stateIdle c) (stateHijacked c)
            (totalAccepted c) (Int64.add (totalClosed c) d) (connStates c).
Definition setConnStates (m : gmap nat ConnState) (c : ConnStateCounter)
  : ConnStateCounter :=
  mkCounter (stateNew c) (stateActive c) (stateIdle c) (stateHijacked c)
            (totalAccepted c) (totalClosed c) m.

(** [decrementState]: the switch has no case for [StateClosed]. *)
Definition decrementState (c : ConnStateCounter) (state : ConnState)
  : ConnStateCounter :=
  match state with
  | StateNew      => addNew (-1) c
  | StateActive   => addActive (-1) c
  | StateIdle     => addIdle (-1) c
  | StateHijacked => addHijacked (-1) c
  | StateClosed   => c
  end.

(** [TrackConnState], the part executed under [c.mu]. *)
Definition TrackConnState (c : ConnStateCounter) (conn : Conn)
           (state : ConnState) : ConnStateCounter :=
  let c1 :=
    match connStates c !! conn with
    | Some prevState => decrementState c prevState
    | None => c
    end in
  match state with
  | StateNew =>
      setConnStates (<[conn := state]> (connStates c1))
                    (addAccepted 1 (addNew 1 c1))
  | StateActive =>
      setConnStates (<[conn := state]> (connStates c1)) (addActive 1 c1)
  | StateIdle =>
      setConnStates (<[conn := state]> (connStates c1)) (addIdle 1 c1)
  | StateHijacked =>
      setConnStates (<[conn := state]> (connStates c1)) (addHijacked 1 c1)
  | StateClosed =>
      addClosed 1 (setConnStates (delete conn (connStates c1)) c1)
  end.

Record Snapshot : Set := mkSnapshot {
  New : Z; Active : Z; Idle : Z; Hijacked : Z;
  TotalAccepted : Z; TotalClosed : Z
}.

Definition GetSnapshot (c : ConnStateCounter) : Snapshot :=
  mkSnapshot (stateNew c) (stateActive c) (stateIdle c) (stateHijacked c)
             (totalAccepted c) (totalClosed c).

(** The hook is invoked once per state change; a history is the list of
    those invocations, oldest first. *)
Definition Call : Set := (Conn * ConnState)%type.

Definition track (c : ConnStateCounter) (x : Call) : ConnStateCounter :=
  TrackConnState c (fst x) (snd x).

Definition run (calls : list Call) (c : ConnStateCounter) : ConnStateCounter :=
  fold_left track calls c.

(** Most recent state reported for [conn] in a history, if any. *)
Definition lastState (conn : Conn) (calls : list Call) : option ConnState :=
  fold_left (fun acc x => if decide (fst x = conn) then Some (snd x) else acc)
            calls None.

(** [conn] is open after a history when its most recent report exists and
    is not [StateClosed]. *)
Definition isOpen (conn : Conn) (calls : list Call) : bool :=
  match lastState conn calls with
  | None | Some StateClosed => false
  | Some _ => true
  end.

(** The order in which net/http reports states for one connection:
    [StateNew] comes first, and is not repeated while the connection is
    open.  [lifecycle calls] checks it for every call of a history. *)
Fixpoint lifecycleFrom (past : list Call) (calls : list Call) : bool :=
  match calls with
  | [] => true
  | x :: rest =>
      bool_decide (snd x = StateNew ↔ isOpen (fst x) past = false)
      && lifecycleFrom (past ++ [x]) rest
  end.

Definition lifecycle (calls : list Call) : bool := lifecycleFrom [] calls.

(** The two sides of the counter balance, in Go's [int64] arithmetic and
    over the integers. *)
Definition liveSum (s : Snapshot) : Z :=
  Int64.add (Int64.add (Int64.add (New s) (Active s)) (Idle s)) (Hijacked s).
Definition netAccepted (s : Snapshot) : Z :=
  Int64.sub (TotalAccepted s) (TotalClosed s).

Definition balanced (s : Snapshot) : Prop := liveSum s = netAccepted s.
Definition balancedZ (s : Snapshot) : Prop :=
  New s + Active s + Idle s + Hijacked s = TotalAccepted s - TotalClosed s.

(** Predicates used to state and prove the balance. *)

(** What the tracker needs from its state to keep the balance: the
    counters balance, and no entry of the mapping is [StateClosed]. *)
Definition consistent (c : ConnStateCounter) : Prop :=
  balanced (GetSnapshot c) /\
  forall k, connStates c !! k <> Some StateClosed.

(** Every counter stays within [n] of zero. *)
Definition within (n : Z) (c : ConnStateCounter) : Prop :=
  - n <= stateNew c <= n /\ - n <= stateActive c <= n /\
  - n <= stateIdle c <= n /\ - n <= stateHijacked c <= n /\
  - n <= totalAccepted c <= n /\ - n <= totalClosed c <= n.

(** [http.ConnState] is declared as [type ConnState int] and its five
    constants are 0 to 4; the parameter of the hook can hold any value of
    the type. *)
Definition stateValue (s : ConnState) : Z :=
  match s with
  | StateNew      => 0
  | StateActive   => 1
  | StateIdle     => 2
  | StateHijacked => 3
  | StateClosed   => 4
  end.

Definition namedState (v : Z) : option ConnState :=
  match v with
  | 0 => Some StateNew
  | 1 => Some StateActive
  | 2 => Some StateIdle
  | 3 => Some StateHijacked
  | 4 => Some StateClosed
  | _ => None
  end.

(** [TrackConnState] for any value of [state].  On the five constants it is
    the function above.  For any other value no case of the second switch
    applies (it has no [default]), so all that happens is the decrement for
    the previous state; the mapping keeps its entry. *)
Definition TrackConnStateValue (c : ConnStateCounter) (conn : Conn)
           (state : Z) : ConnStateCounter :=
  match namedState state with
  | Some st => TrackConnState c conn st
  | None =>
      match connStates c !! conn with
      | Some prevState => decrementState c prevState
      | None => c
      end
  end.

(** Histories whose states are arbitrary values of the integer type. *)
Definition ValueCall : Set := (Conn * Z)%type.

Definition trackValue (c : ConnStateCounter) (x : ValueCall)
  : ConnStateCounter :=
  TrackConnStateValue c (fst x) (snd x).

Definition runValues (calls : list ValueCall) (c : ConnStateCounter)
  : ConnStateCounter :=
  fold_left trackValue calls c.

(** The calls of a history that carry one of the five constants, in
    order. *)
Definition named (calls : list ValueCall) : list Call :=
  omap (fun x : ValueCall => pair (fst x) <$> namedState (snd x)) calls.

(** Every call of the history carries one of the five constants. *)
Definition allNamed (calls : list ValueCall) : bool :=
  forallb (fun x : ValueCall => bool_decide (is_Some (namedState (snd x))))
          calls.

(** [stateName]. *)
Definition stateName (state : Z) : string :=
  match state with
  | 0 => "new"
  | 1 => "active"
  | 2 => "idle"
  | 3 => "hijacked"
  | 4 => "closed"
  | _ => "unknown"
  end%string.

(** The two state fields of the debug line [TrackConnState] emits after
    releasing the lock.  [prevState] is the value read from the map, which
    for a missing key is the zero value of [http.ConnState], [StateNew].
    (The remote address belongs to the connection object and is left
    out.) *)
Record LogLine : Set := mkLogLine {
  prev_state : string;
  new_state  : string
}.

Definition logLine (c : ConnStateCounter) (conn : Conn) (state : Z)
  : LogLine :=
  let prevState :=
    match connStates c !! conn with
    | Some p => stateValue p
    | None => 0
    end in
  mkLogLine (stateName prevState) (stateName state).

(** Number of identities the mapping holds in a given state. *)
Definition entriesIn (s : ConnState) (m : gmap nat ConnState) : Z :=
  Z.of_nat (size (filter (fun kv : nat * ConnState => snd kv = s) m)).

(** Number of times a state was reported in a history. *)
Definition reports (s : ConnState) (calls : list Call) : Z :=
  Z.of_nat (length (filter (fun x : Call => snd x = s) calls)).

(** The live counter kept for a state; there is none for [StateClosed]. *)
Definition liveCounter (s : ConnState) (c : ConnStateCounter) : Z :=
  match s with
  | StateNew      => stateNew c
  | StateActive   => stateActive c
  | StateIdle     => stateIdle c
  | StateHijacked => stateHijacked c
  | StateClosed   => 0
  end.

Definition holds (s : ConnState) (o : option ConnState) : Z :=
  match o with
  | Some p => if decide (p = s) then 1 else 0
  | None => 0
  end.

(** Each live counter is, modulo 2^64, the number of entries in its
    state. *)
Definition mirrored (c : ConnStateCounter) : Prop :=
  (forall k, connStates c !! k <> Some StateClosed) /\
  forall s, s <> StateClosed ->
            liveCounter s c = Int64.wrap (entriesIn s (connStates c)).

(** A history that does not follow the lifecycle: a report for an unknown
    connection, a repeated [StateNew], a close of a connection never
    seen. *)
Definition unrulyHistory : list Call :=
  [(4%nat, StateIdle); (5%nat, StateNew); (5%nat, StateNew);
   (6%nat, StateClosed); (7%nat, StateHijacked); (4%nat, StateActive)].

(** Three connections, two of them closed again. *)
Definition threeConnections : list Call :=
  [(1%nat, StateNew); (2%nat, StateNew); (1%nat, StateActive);
   (3%nat, StateNew); (2%nat, StateClosed); (1%nat, StateIdle);
   (3%nat, StateActive); (1%nat, StateClosed)].

(** Connection 5 is opened and becomes active; then the hook is called
    for it with a value that is none of the five constants. *)
Definition strayHistory : list ValueCall :=
  [(5%nat, 0); (5%nat, 1); (6%nat, 0); (5%nat, 9)].

End Metrics.

(** ** cmd/loadgen/main.go *)

Module Loadgen.

(** [Stats]: four atomic counters and the mutex-protected sample slice. *)
Record Stats : Set := mkStats {
  totalRequests  : Z;
  successCount   : Z;
  errorCount     : Z;
  totalLatencyNs : Z;
  latencies      : list Z
}.

Definition emptyStats : Stats := mkStats 0 0 0 0 [].

(** What the HTTP client hands back to [doRequest]: either [client.Get]
    fails, or it yields a response with a status code whose body is then
    drained by [io.Copy], which can fail too. *)
Inductive Reply : Set :=
| GetFailed
| Response (statusCode : Z) (bodyDrained : bool).

Inductive error : Set :=
| TransportError
| BodyError
| HTTPError (statusCode : Z).

(** [doRequest]: [None] is the nil error. *)
Definition doRequest (r : Reply) : option error :=
  match r with
  | GetFailed => Some TransportError
  | Response code drained =>
      if negb drained then Some BodyError
      else if 400 <=? code then Some (HTTPError code)
      else None
  end.

(** Control points of one [worker] goroutine.  Every constructor but
    [LoopTop] and [Exited] is a point in the middle of an iteration, between
    two accesses to the shared [stats]. *)
Inductive Pc : Set :=
| LoopTop
| Measured (err : option error) (latency : Z)
| AddedTotal (err : option error) (latency : Z)
| AddedLatency (err : option error) (latency : Z)
| AddedSuccess (latency : Z)
| Exited.

(** The process: the shared statistics, whether the stop channel has been
    closed, and one control point per worker. *)
Record World : Set := mkWorld {
  stats     : Stats;
  ctxClosed : bool;
  workers   : list Pc
}.

Definition start (concurrency : nat) : World :=
  mkWorld emptyStats false (replicate concurrency LoopTop).

(** One atomic action of worker [w], following the body of [worker]
    statement by statement.  [r] and [latency] are the reply and the
    measured duration of the request, used when the action is the request
    itself. *)
Definition workerStep (closed : bool) (r : Reply) (latency : Z)
           (s : Stats) (p : Pc) : Stats * Pc :=
  match p with
  | LoopTop =>
      if closed then (s, Exited)
      else (s, Measured (doRequest r) latency)
  | Measured e l =>
      (mkStats (Int64.add (totalRequests s) 1) (successCount s) (errorCount s)
               (totalLatencyNs s) (latencies s),
       AddedTotal e l)
  | AddedTotal e l =>
      (mkStats (totalRequests s) (successCount s) (errorCount s)
               (Int64.add (totalLatencyNs s) l) (latencies s),
       AddedLatency e l)
  | AddedLatency (Some _) l =>
      (mkStats (totalRequests s) (successCount s)
               (Int64.add (errorCount s) 1) (totalLatencyNs s) (latencies s),
       LoopTop)
  | AddedLatency None l =>
      (mkStats (totalRequests s) (Int64.add (successCount s) 1)
               (errorCount s) (totalLatencyNs s) (latencies s),
       AddedSuccess l)
  | AddedSuccess l =>
      (mkStats (totalRequests s) (successCount s) (errorCount s)
               (totalLatencyNs s) (latencies s ++ [l]),
       LoopTop)
  | Exited => (s, Exited)
  end.

(** Scheduler and environment choices.  [CloseCtx] is the duration timer or
    the signal handler closing the stop channel; [Sched w r latency] lets
    worker [w] perform its next action. *)
Inductive Event : Set :=
| CloseCtx
| Sched (w : nat) (r : Reply) (latency : Z).

Definition step (wd : World) (e : Event) : World :=
  match e with
  | CloseCtx => mkWorld (stats wd) true (workers wd)
  | Sched w r latency =>
      match workers wd !! w with
      | None => wd
      | Some p =>
          let '(s', p') := workerStep (ctxClosed wd) r latency (stats wd) p in
          mkWorld s' (ctxClosed wd) (<[w := p']> (workers wd))
      end
  end.

Definition exec (trace : list Event) (wd : World) : World :=
  fold_left step trace wd.

Definition midIteration (p : Pc) : bool :=
  match p with
  | LoopTop | Exited => false
  | _ => true
  end.

(** No worker is between two statements of an iteration. *)
Definition quiescent (wd : World) : bool :=
  forallb (fun p => negb (midIteration p)) (workers wd).

Definition allExited (wd : World) : bool :=
  forallb (fun p => match p with Exited => true | _ => false end) (workers wd).

(** Every request issued in a trace was answered with this status code. *)
Definition answeredWith (code : Z) (e : Event) : Prop :=
  match e with
  | CloseCtx => True
  | Sched _ r _ => exists drained, r = Response code drained
  end.

(** [sort.Slice(latencies, func(i, j) { latencies[i] < latencies[j] })]:
    the ascending rearrangement of the slice. *)
Definition sortSlice (l : list Z) : list Z := merge_sort Z.le l.

(** [percentile]; [None] is the index-out-of-range panic of [sorted[idx]]. *)
Definition percentile (sorted : list Z) (p : Z) : option Z :=
  if (length sorted =? 0)%nat then Some 0
  else
    let idx :=
      Int64.quot (Int64.mul (Int64.sub (Z.of_nat (length sorted)) 1) p) 100 in
    if idx <? 0 then None else sorted !! Z.to_nat idx.

(** The latency figures printed by [printResults]. *)
Record Report : Set := mkReport {
  total : Z; success : Z; errors : Z;
  avgLatency : Z; p50 : Z; p95 : Z; p99 : Z
}.

Definition sumDurations (l : list Z) : Z := fold_left Int64.add l 0.

(** [printResults]: the figures it computes.  The four latency figures
    are those held by [avgLatency], [p50], [p95] and [p99] before they are
    rounded for display ([printedReport] below gives them as printed); the
    floating-point rate and percentages are not part of the model. *)
Definition printResults (s : Stats) : option Report :=
  let latencies := latencies s in
  if (0 <? length latencies)%nat then
    let sorted := sortSlice latencies in
    let sum := sumDurations sorted in
    let avg := Int64.quot sum (Z.of_nat (length sorted)) in
    v50 ← percentile sorted 50;
    v95 ← percentile sorted 95;
    v99 ← percentile sorted 99;
    Some (mkReport (totalRequests s) (successCount s) (errorCount s)
                   avg v50 v95 v99)
  else
    Some (mkReport (totalRequests s) (successCount s) (errorCount s) 0 0 0 0).

Definition Microsecond : Z := 1000.

(** [lessThanHalf] of package [time]: [x + x < y], computed on [uint64]. *)
Definition lessThanHalf (x y : Z) : bool :=
  (Int64.unsigned x + Int64.unsigned x) mod 2 ^ 64 <? Int64.unsigned y.

(** [time.Duration.Round]: the multiple of [m] nearest to [d], halfway
    values going away from zero; the largest (smallest) duration when that
    multiple does not fit; [d] itself when [m] is not positive. *)
Definition Round (d m : Z) : Z :=
  if m <=? 0 then d
  else
    let r := Z.rem d m in
    if d <? 0 then
      let r := Int64.neg r in
      if lessThanHalf r m then Int64.add d r
      else
        let d1 := Int64.add (Int64.sub d m) r in
        if d1 <? d then d1 else Int64.min_int
    else
      if lessThanHalf r m then Int64.sub d r
      else
        let d1 := Int64.sub (Int64.add d m) r in
        if d <? d1 then d1 else Int64.max_int.

(** A latency figure as the "Latency:" lines show it: [printResults] passes
    each of the four through [Round(time.Microsecond)] before formatting
    it. *)
Definition shown (d : Z) : Z := Round d Microsecond.

(** The report with its latency figures as printed. *)
Definition printedReport (r : Report) : Report :=
  mkReport (total r) (success r) (errors r)
           (shown (avgLatency r)) (shown (p50 r)) (shown (p95 r))
           (shown (p99 r)).

(** Nearest-rank index over the integers. *)
Definition rankIndex (n : nat) (p : Z) : nat :=
  Z.to_nat (((Z.of_nat n - 1) * p) / 100).

Definition minimum (l : list Z) : Z := fold_right Z.min (hd 0 l) l.
Definition maximum (l : list Z) : Z := fold_right Z.max (hd 0 l) l.
Definition sumZ (l : list Z) : Z := fold_right Z.add 0 l.

Definition ms (n : Z) : Z := n * 1000000.

(** Auxiliary notions for the properties of the worker pool. *)

(** The ten samples 1ms .. 10ms, in the order the workers happened to
    record them. *)
Definition tenSamples : list Z :=
  map ms [7; 2; 10; 4; 1; 9; 5; 3; 8; 6].

(** A worker that has added to [totalRequests] but not yet to
    [successCount] or [errorCount]. *)
Definition uncounted (p : Pc) : Z :=
  match p with
  | AddedTotal _ _ | AddedLatency _ _ => 1
  | _ => 0
  end.

Definition inFlight (ws : list Pc) : Z := sumZ (map uncounted ws).

(** The invariant behind the counter balance: whatever the interleaving,
    [totalRequests] is ahead of [successCount + errorCount] by exactly the
    number of workers caught between the two additions. *)
Definition accounted (wd : World) : Prop :=
  totalRequests (stats wd) =
  Int64.wrap (successCount (stats wd) + errorCount (stats wd)
              + inFlight (workers wd)).

(** No counter moves by more than one per scheduled action. *)
Definition countersWithin (n : Z) (s : Stats) : Prop :=
  0 <= totalRequests s <= n /\ 0 <= successCount s <= n /\
  0 <= errorCount s <= n.

(** When every request is answered with an error, no worker ever holds a
    nil error, [successCount] stays 0 and no sample is recorded. *)
Definition failing (p : Pc) : Prop :=
  match p with
  | Measured None _ | AddedTotal None _ | AddedLatency None _
  | AddedSuccess _ => False
  | _ => True
  end.

Definition allFailing (wd : World) : Prop :=
  Forall failing (workers wd) /\
  successCount (stats wd) = 0 /\ latencies (stats wd) = [] /\
  Int64.in_range (errorCount (stats wd)).

(** [k] consecutive actions of one worker, nobody else being scheduled in
    between. *)
Fixpoint workerSteps (k : nat) (closed : bool) (r : Reply) (latency : Z)
         (s : Stats) (p : Pc) : Stats * Pc :=
  match k with
  | O => (s, p)
  | S k' =>
      let '(s', p') := workerStep closed r latency s p in
      workerSteps k' closed r latency s' p'
  end.

(** The actions that make up one iteration of [worker] for reply [r]: the
    request, two additions, and then one addition (error) or an addition
    and the append (success). *)
Definition oneIteration (w : nat) (r : Reply) (latency : Z) : list Event :=
  replicate (match doRequest r with Some _ => 4 | None => 5 end)%nat
            (Sched w r latency).

(** Two workers whose actions interleave: worker 0 gets a 200, worker 1 a
    503, and the stop channel is closed while both are mid-iteration. *)
Definition twoWorkers : list Event :=
  [Sched 0 (Response 200 true) 7; Sched 1 (Response 503 true) 9;
   Sched 1 GetFailed 0; Sched 0 GetFailed 0; CloseCtx;
   Sched 0 GetFailed 0; Sched 1 GetFailed 0; Sched 1 GetFailed 0;
   Sched 0 GetFailed 0; Sched 0 GetFailed 0;
   Sched 0 GetFailed 0; Sched 1 GetFailed 0].

(** Two workers, three requests, all answered 500; both workers have
    returned. *)
Definition all500 : list Event :=
  [Sched 0 (Response 500 true) 3; Sched 1 (Response 500 false) 4;
   Sched 0 (Response 500 true) 0; Sched 0 (Response 500 true) 0;
   Sched 1 (Response 500 true) 0; Sched 0 (Response 500 true) 0;
   Sched 0 (Response 500 true) 5; Sched 1 (Response 500 true) 0;
   Sched 1 (Response 500 true) 0; CloseCtx;
   Sched 0 (Response 500 true) 0; Sched 0 (Response 500 true) 0;
   Sched 0 (Response 500 true) 0; Sched 0 (Response 500 true) 0;
   Sched 1 (Response 500 true) 0].

(** A worker that has added to [successCount] but not yet appended its
    sample. *)
Definition awaitingAppend (p : Pc) : Z :=
  match p with
  | AddedSuccess _ => 1
  | _ => 0
  end.

Definition tally (f : Pc -> Z) (ws : list Pc) : Z := sumZ (map f ws).

(** A request of the trace that was answered without error and took
    [latency]. *)
Definition succeededWith (latency : Z) (e : Event) : Prop :=
  match e with
  | CloseCtx => False
  | Sched _ r l => doRequest r = None /\ l = latency
  end.

(** The latency a worker carries towards the sample slice, if any. *)
Definition carried (p : Pc) : option Z :=
  match p with
  | Measured None l | AddedTotal None l | AddedLatency None l
  | AddedSuccess l => Some l
  | _ => None
  end.

(** *** The stop channel in [main]

    Two goroutines close the same channel [ctx]: the one that waits for
    SIGINT/SIGTERM and the one that sleeps for [cfg.Duration].  Each does
    so once, without checking whether the channel is already closed; in Go
    closing a closed channel panics.  [main] itself blocks on [<-ctx],
    then sleeps for the drain period, prints the results and returns. *)
Inductive Status : Set :=
| Running
| Panicked
| Returned.

Record Process : Set := mkProcess {
  stopClosed : bool;   (* ctx has been closed *)
  signalGone : bool;   (* the signal goroutine has run to its end *)
  timerGone  : bool;   (* the duration goroutine has run to its end *)
  state      : Status
}.

Inductive StopEvent : Set :=
| SignalDelivered   (* a SIGINT or SIGTERM arrives *)
| DurationElapsed   (* time.Sleep(cfg.Duration) returns *)
| DrainElapsed      (* main's 500ms sleep and printResults are over *).

Definition launched : Process := mkProcess false false false Running.

(** [close(ctx)]. *)
Definition closeStop (p : Process) : Process :=
  if stopClosed p
  then mkProcess true (signalGone p) (timerGone p) Panicked
  else mkProcess true (signalGone p) (timerGone p) (state p).

Definition mainStep (p : Process) (e : StopEvent) : Process :=
  match state p with
  | Running =>
      match e with
      | SignalDelivered =>
          if signalGone p then p
          else closeStop (mkProcess (stopClosed p) true (timerGone p) Running)
      | DurationElapsed =>
          if timerGone p then p
          else closeStop (mkProcess (stopClosed p) (signalGone p) true Running)
      | DrainElapsed =>
          if stopClosed p
          then mkProcess true (signalGone p) (timerGone p) Returned
          else p
      end
  | _ => p
  end.

Definition mainRun (events : list StopEvent) : Process :=
  fold_left mainStep events launched.

(** [successCount] is ahead of the number of recorded samples by the
    number of workers between the addition and the append; and the slice
    grows by at most one element per action. *)
Definition sampled (n : Z) (wd : World) : Prop :=
  successCount (stats wd) =
  Int64.wrap (Z.of_nat (length (latencies (stats wd)))
              + tally awaitingAppend (workers wd)) /\
  Z.of_nat (length (latencies (stats wd))) <= n.

(** Every latency a worker carries towards the slice, and every latency in
    the slice, was measured on a request of the trace that returned no
    error. *)
Definition traced (trace : list Event) (wd : World) : Prop :=
  Forall (fun p => forall l, carried p = Some l ->
                             Exists (succeededWith l) trace) (workers wd) /\
  Forall (fun l => Exists (succeededWith l) trace) (latencies (stats wd)).

(** While [main] has not returned and nothing has panicked: each goroutine
    that was due has run, the channel is closed iff one of them has, and
    they have not both run. *)
Definition orderly (events : list StopEvent) (p : Process) : Prop :=
  state p <> Returned /\
  (state p = Running ->
   (In SignalDelivered events -> signalGone p = true) /\
   (In DurationElapsed events -> timerGone p = true) /\
   stopClosed p = signalGone p || timerGone p /\
   signalGone p && timerGone p = false).

(** If the signal never arrives, or the duration never elapses, the
    channel is closed at most once. *)
Definition single (events : list StopEvent) (p : Process) : Prop :=
  state p <> Panicked /\
  (~ In SignalDelivered events -> signalGone p = false) /\
  (~ In DurationElapsed events -> timerGone p = false) /\
  (state p = Running -> stopClosed p = signalGone p || timerGone p).

End Loadgen.

(** ** cmd/slowloris/main.go *)

Module Slowloris.

Definition CR : ascii := ascii_of_nat 13.
Definition LF : ascii := ascii_of_nat 10.
Definition CRLF : list ascii := [CR; LF].

Definition bytes (s : string) : list ascii := list_ascii_of_string s.

(** The [%d] verb of [fmt]: signed decimal. *)
Definition formatInt (z : Z) : list ascii :=
  bytes (NilZero.string_of_int (Z.to_int z)).

Record Config : Set := mkConfig {
  Target         : list ascii;
  NumConns       : Z;
  Delay          : Z;
  Duration       : Z;
  KeepOpen       : bool;
  Debug          : bool;
  ReportInterval : Z
}.

(** The configuration [parseFlags] returns when no flag is given
    (durations in nanoseconds). *)
Definition defaultFlags : Config :=
  mkConfig (bytes "localhost:8080") 100 1000000000 0 true false 5000000000.

Record Stats : Set := mkStats {
  activeConns    : Z;
  totalConns     : Z;
  closedByServer : Z;
  errors         : Z;
  headersSent    : Z
}.

Definition addActiveConns (d : Z) (s : Stats) : Stats :=
  mkStats (Int64.add (activeConns s) d) (totalConns s) (closedByServer s)
          (errors s) (headersSent s).
Definition addTotalConns (d : Z) (s : Stats) : Stats :=
  mkStats (activeConns s) (Int64.add (totalConns s) d) (closedByServer s)
          (errors s) (headersSent s).
Definition addClosedByServer (d : Z) (s : Stats) : Stats :=
  mkStats (activeConns s) (totalConns s) (Int64.add (closedByServer s) d)
          (errors s) (headersSent s).
Definition addErrors (d : Z) (s : Stats) : Stats :=
  mkStats (activeConns s) (totalConns s) (closedByServer s)
          (Int64.add (errors s) d) (headersSent s).
Definition addHeadersSent (d : Z) (s : Stats) : Stats :=
  mkStats (activeConns s) (totalConns s) (closedByServer s) (errors s)
          (Int64.add (headersSent s) d).

(** A non-nil error as the header loop inspects it: either a [net.Error],
    with the answer of its [Timeout] method, or some other error. *)
Inductive error : Set :=
| NetError (timeout : bool)
| OtherError.

Definition isTimeout (e : error) : bool :=
  match e with
  | NetError t => t
  | OtherError => false
  end.

(** Result of one [Write] on the connection: success, or an error after
    [n] bytes of the buffer went out. *)
Inductive WriteResult : Set :=
| WriteOk
| WriteFailed (n : nat).

(** One connection as seen from the client side: the bytes that went out on
    it, and the buffers passed to its [Write], in order. *)
Record Wire : Set := mkWire {
  sent   : list ascii;
  writes : list (list ascii)
}.

Definition freshConn : Wire := mkWire [] [].

Definition connWrite (buf : list ascii) (r : WriteResult) (c : Wire)
  : Wire * bool :=
  match r with
  | WriteOk => (mkWire (sent c ++ buf) (writes c ++ [buf]), true)
  | WriteFailed n => (mkWire (sent c ++ take n buf) (writes c ++ [buf]), false)
  end.

(** The four lines the program formats. *)
Definition requestLine (id : Z) : list ascii :=
  bytes "GET /?worker=" ++ formatInt id ++ bytes " HTTP/1.1" ++ CRLF.
Definition hostLine (target : list ascii) : list ascii :=
  bytes "Host: " ++ target ++ CRLF.
Definition userAgentLine : list ascii :=
  bytes "User-Agent: slowloris-go/1.0" ++ CRLF.
Definition customHeader (headerNum now : Z) : list ascii :=
  bytes "X-Slowloris-" ++ formatInt headerNum ++ bytes ": " ++ formatInt now
        ++ CRLF.

(** What the environment answers during one pass of the header loop: which
    case of the [select] fires, the error of [reader.Peek(1)] ([None] is
    nil), the clock reading, and the result of the write. *)
Record Tick : Set := mkTick {
  tCancelled : bool;
  tPeek      : option error;
  tNow       : Z;
  tWrite     : WriteResult
}.

(** The answers for one whole connection. *)
Record ConnScript : Set := mkConnScript {
  wRequest   : WriteResult;
  cancelled1 : bool;
  wHost      : WriteResult;
  cancelled2 : bool;
  wUserAgent : WriteResult;
  ticks      : list Tick
}.

Inductive Outcome : Set :=
| Continue (headerNum : Z)
| Return (closedByServer : bool).

(** One pass of the [for] loop of [performSlowloris]. *)
Definition headerTick (cfg : Config) (headerNum : Z) (t : Tick)
           (s : Stats) (c : Wire) : Stats * Wire * Outcome :=
  if tCancelled t then (s, c, Return false)
  else
    match tPeek t with
    | None => (s, c, Return false)
    | Some err =>
        if negb (isTimeout err) then (s, c, Return true)
        else
          let headerNum := Int64.add headerNum 1 in
          let headerLine := customHeader headerNum (tNow t) in
          let '(c', ok) := connWrite headerLine (tWrite t) c in
          if negb ok then (s, c', Return true)
          else
            let s' := addHeadersSent 1 s in
            if negb (KeepOpen cfg) && (10 <=? headerNum)
            then (s', c', Return false)
            else (s', c', Continue headerNum)
    end.

(** The loop itself.  It runs for as long as the environment has answers;
    [None] means it is still waiting for its next tick. *)
Fixpoint headerLoop (cfg : Config) (headerNum : Z) (ts : list Tick)
         (s : Stats) (c : Wire) : Stats * Wire * option bool :=
  match ts with
  | [] => (s, c, None)
  | t :: ts' =>
      match headerTick cfg headerNum t s c with
      | (s', c', Return b) => (s', c', Some b)
      | (s', c', Continue n) => headerLoop cfg n ts' s' c'
      end
  end.

(** [performSlowloris]: [Some b] is the returned boolean. *)
Definition performSlowloris (cfg : Config) (id : Z) (sc : ConnScript)
           (s : Stats) (c : Wire) : Stats * Wire * option bool :=
  let '(c1, ok1) := connWrite (requestLine id) (wRequest sc) c in
  if negb ok1 then (s, c1, Some true)
  else
    let s1 := addHeadersSent 1 s in
    if cancelled1 sc then (s1, c1, Some false)
    else
      let '(c2, ok2) := connWrite (hostLine (Target cfg)) (wHost sc) c1 in
      if negb ok2 then (s1, c2, Some true)
      else
        let s2 := addHeadersSent 1 s1 in
        if cancelled2 sc then (s2, c2, Some false)
        else
          let '(c3, ok3) := connWrite userAgentLine (wUserAgent sc) c2 in
          if negb ok3 then (s2, c3, Some true)
          else
            let s3 := addHeadersSent 1 s2 in
            headerLoop cfg 0 (ticks sc) s3 c3.

(** Lines 164-170 of [slowlorisWorker]: what follows the return of
    [performSlowloris]. *)
Definition finishConnection (closed : bool) (s : Stats) : Stats :=
  let s1 := addActiveConns (-1) s in
  if closed then addClosedByServer 1 s1 else s1.

(** The answers for one pass of the loop of [slowlorisWorker]: the two
    [select]s on the stop channel and the dial ([None]: dial error). *)
Record Attempt : Set := mkAttempt {
  aCancelled      : bool;
  aDial           : option ConnScript;
  aCancelledAfter : bool
}.

Inductive Next : Set :=
| Again        (* the loop goes round *)
| Finished     (* the worker returned *)
| InHeaderLoop (* the worker is inside performSlowloris *).

(** One pass of the loop of [slowlorisWorker].  The second component is the
    connection opened in this pass, if any. *)
Definition workerIteration (cfg : Config) (id : Z) (a : Attempt) (s : Stats)
  : Stats * option Wire * Next :=
  if aCancelled a then (s, None, Finished)
  else
    match aDial a with
    | None => (addErrors 1 s, None, Again)
    | Some sc =>
        let s1 := addActiveConns 1 (addTotalConns 1 s) in
        match performSlowloris cfg id sc s1 freshConn with
        | (s2, c, None) => (s2, Some c, InHeaderLoop)
        | (s2, c, Some closed) =>
            let s3 := finishConnection closed s2 in
            (s3, Some c, if aCancelledAfter a then Finished else Again)
        end
    end.

(** [slowlorisWorker] against a list of attempts; returns the statistics,
    the connections opened (oldest first), and where the worker is. *)
Fixpoint slowlorisWorker (cfg : Config) (id : Z) (attempts : list Attempt)
         (s : Stats) : Stats * list Wire * Next :=
  match attempts with
  | [] => (s, [], Again)
  | a :: rest =>
      match workerIteration cfg id a s with
      | (s', oc, Again) =>
          let '(s'', cs, nx) := slowlorisWorker cfg id rest s' in
          (s'', option_list oc ++ cs, nx)
      | (s', oc, nx) => (s', option_list oc, nx)
      end
  end.

(** Number of successful dials the worker performed on a list of attempts. *)
Fixpoint dialsSucceeded (cfg : Config) (id : Z) (attempts : list Attempt)
         (s : Stats) : Z :=
  match attempts with
  | [] => 0
  | a :: rest =>
      let here :=
        if aCancelled a then 0
        else match aDial a with Some _ => 1 | None => 0 end in
      match workerIteration cfg id a s with
      | (s', _, Again) => here + dialsSucceeded cfg id rest s'
      | _ => here
      end
  end.

(** Number of failed dials among the attempts the worker went through. *)
Fixpoint dialsFailed (cfg : Config) (id : Z) (attempts : list Attempt)
         (s : Stats) : Z :=
  match attempts with
  | [] => 0
  | a :: rest =>
      let here :=
        if aCancelled a then 0
        else match aDial a with Some _ => 0 | None => 1 end in
      match workerIteration cfg id a s with
      | (s', _, Again) => here + dialsFailed cfg id rest s'
      | _ => here
      end
  end.

(** Number of connections, among the attempts the worker went through, for
    which [performSlowloris] returned [true]. *)
Fixpoint closedByPeer (cfg : Config) (id : Z) (attempts : list Attempt)
         (s : Stats) : Z :=
  match attempts with
  | [] => 0
  | a :: rest =>
      let here :=
        if aCancelled a then 0
        else
          match aDial a with
          | Some sc =>
              match snd (performSlowloris cfg id sc
                           (addActiveConns 1 (addTotalConns 1 s)) freshConn)
              with
              | Some true => 1
              | _ => 0
              end
          | None => 0
          end in
      match workerIteration cfg id a s with
      | (s', _, Again) => here + closedByPeer cfg id rest s'
      | _ => here
      end
  end.

(** No carriage return or line feed among the bytes. *)
Definition lineFree (b : list ascii) : bool :=
  forallb (fun a => negb (Ascii.eqb a CR) && negb (Ascii.eqb a LF)) b.

(** A single non-empty line closed by one CRLF. *)
Definition singleLine (l : list ascii) : Prop :=
  exists body, l = body ++ CRLF /\ body <> [] /\ lineFree body = true.

(** The blank line that ends a header section occurs in the byte stream. *)
Fixpoint hasTerminator (l : list ascii) : bool :=
  match l with
  | a :: (b :: c :: d :: _) as rest =>
      (Ascii.eqb a CR && Ascii.eqb b LF && Ascii.eqb c CR && Ascii.eqb d LF)
      || hasTerminator rest
  | _ => false
  end.

Definition timeoutTick (now : Z) : Tick :=
  mkTick false (Some (NetError true)) now WriteOk.

(** The peer never answers, never closes, and every write succeeds. *)
Definition silentTick (t : Tick) : Prop :=
  tCancelled t = false /\ tPeek t = Some (NetError true) /\ tWrite t = WriteOk.

Definition silentPeer (sc : ConnScript) : Prop :=
  wRequest sc = WriteOk /\ cancelled1 sc = false /\
  wHost sc = WriteOk /\ cancelled2 sc = false /\
  wUserAgent sc = WriteOk /\ Forall silentTick (ticks sc).

(** Auxiliary notions for the properties of the simulator. *)

(** The first four bytes are CR LF CR LF. *)
Definition startsBlank (l : list ascii) : bool :=
  match l with
  | a :: b :: c :: d :: _ =>
      Ascii.eqb a CR && Ascii.eqb b LF && Ascii.eqb c CR && Ascii.eqb d LF
  | _ => false
  end.

(** The list is empty or begins with a byte that is neither CR nor LF. *)
Definition goodStart (l : list ascii) : bool :=
  match l with
  | [] => true
  | a :: _ => negb (Ascii.eqb a CR) && negb (Ascii.eqb a LF)
  end.

(** Every write so far succeeded: the stream is the concatenation of the
    buffers written, each a single line. *)
Definition intact (c : Wire) : Prop :=
  sent c = concat (writes c) /\ Forall singleLine (writes c).

(** The general shape of a connection: every buffer written is a single
    line, and the stream consists of whole lines followed by the beginning
    of one. *)
Definition lineShaped (c : Wire) : Prop :=
  Forall singleLine (writes c) /\
  exists lines line n,
    sent c = concat lines ++ take n line /\
    Forall singleLine lines /\ singleLine line.

(** [s'] differs from [s] at most in [headersSent]. *)
Definition onlyHeaders (s s' : Stats) : Prop :=
  activeConns s' = activeConns s /\ totalConns s' = totalConns s /\
  closedByServer s' = closedByServer s /\ errors s' = errors s.

(** The custom headers sent on successive ticks, numbered from [from]. *)
Fixpoint customHeaders (from : Z) (ts : list Tick) : list (list ascii) :=
  match ts with
  | [] => []
  | t :: ts' => customHeader from (tNow t) :: customHeaders (from + 1) ts'
  end.

Definition zeroStats : Stats := mkStats 0 0 0 0 0.

(** A script in which the three opening writes succeed and the loop gets no
    tick. *)
Definition openingOnly : ConnScript :=
  mkConnScript WriteOk false WriteOk false WriteOk [].

(** The default target, a peer that stays silent for two ticks, and a
    third custom header cut off after five bytes. *)
Definition cutOffScript : ConnScript :=
  mkConnScript WriteOk false WriteOk false WriteOk
               [timeoutTick 1700000000000000001;
                timeoutTick 1700000001000000002;
                mkTick false (Some (NetError true)) 1700000002000000003
                       (WriteFailed 5)].

(** The configuration of a weak attacker: the defaults with [-keep-open]
    switched off. *)
Definition weakFlags : Config :=
  mkConfig (bytes "localhost:8080") 100 1000000000 0 false false 5000000000.

(** A connection whose peer resets it at the third tick. *)
Definition resetAtThird : ConnScript :=
  mkConnScript WriteOk false WriteOk false WriteOk
               [timeoutTick 11; timeoutTick 12;
                mkTick false (Some OtherError) 13 WriteOk].

(** Twelve silent ticks: the last two are never reached. *)
Definition silentScript : ConnScript :=
  mkConnScript WriteOk false WriteOk false WriteOk
               (map timeoutTick [1; 2; 3; 4; 5; 6; 7; 8; 9; 10; 11; 12]).

(** Two refused dials, then a connection the peer resets, then a third
    refused dial. *)
Definition refusedTwice : list Attempt :=
  [mkAttempt false None false; mkAttempt false None false;
   mkAttempt false (Some resetAtThird) false; mkAttempt false None false].

(** The peer, or the network, made itself felt at this tick: the write
    failed, or the peek failed with something other than a timeout. *)
Definition peerFault (t : Tick) : Prop :=
  tWrite t <> WriteOk \/
  exists e, tPeek t = Some e /\ isTimeout e = false.

Definition faulty (sc : ConnScript) : Prop :=
  wRequest sc <> WriteOk \/ wHost sc <> WriteOk \/ wUserAgent sc <> WriteOk \/
  Exists peerFault (ticks sc).

(** The three lines that open every connection. *)
Definition openingLines (cfg : Config) (id : Z) : list (list ascii) :=
  [requestLine id; hostLine (Target cfg); userAgentLine].



(** A target with a host and a port whose host is the IPv6 loopback
    address with a zone, the zone holding CR LF CR LF.  ([net.SplitHostPort]
    takes what stands between the brackets as the host, the address parser
    keeps whatever follows the percent sign as the zone, and a zone that
    names no interface stands for scope 0, so that dialling it reaches port
    8080 of the loopback interface.) *)
Definition zoneTarget : list ascii :=
  bytes "[::1%a" ++ CRLF ++ CRLF ++ bytes "b]:8080".

Definition zoneFlags : Config :=
  mkConfig zoneTarget 100 1000000000 0 true false 5000000000.

(** The four counters the worker loop itself moves hold 64-bit values. *)
Definition inRange (s : Stats) : Prop :=
  Int64.in_range (activeConns s) /\ Int64.in_range (totalConns s) /\
  Int64.in_range (closedByServer s) /\ Int64.in_range (errors s).

End Slowloris.

(** ** cmd/server/main.go *)

Module Server.

(** [responseWriter]: the status and byte count recorded for the request
    log.  The embedded [http.ResponseWriter] is the environment; of its
    [Write] only the returned count matters here. *)
Record responseWriter : Set := mkResponseWriter {
  status       : Z;
  bytesWritten : Z
}.

Definition StatusOK : Z := 200.

(** The wrapper [withLogging] creates: both fields zero. *)
Definition newResponseWriter : responseWriter := mkResponseWriter 0 0.

(** [(rw *responseWriter) WriteHeader]. *)
Definition WriteHeader (rw : responseWriter) (code : Z) : responseWriter :=
  mkResponseWriter code (bytesWritten rw).

(** [(rw *responseWriter) Write]; [n] is the count the wrapped writer
    returned. *)
Definition Write (rw : responseWriter) (n : Z) : responseWriter :=
  mkResponseWriter (if status rw =? 0 then StatusOK else status rw)
                   (Int64.add (bytesWritten rw) n).

(** What a handler does to its writer, call by call. *)
Inductive WriterCall : Set :=
| CallWriteHeader (code : Z)
| CallWrite (n : Z).

Definition apply (rw : responseWriter) (c : WriterCall) : responseWriter :=
  match c with
  | CallWriteHeader code => WriteHeader rw code
  | CallWrite n => Write rw n
  end.

Definition handle (calls : list WriterCall) (rw : responseWriter)
  : responseWriter :=
  fold_left apply calls rw.

(** The code of the last [WriteHeader] among the calls, if any. *)
Definition lastHeader (calls : list WriterCall) : option Z :=
  fold_left (fun acc c => match c with
                          | CallWriteHeader code => Some code
                          | CallWrite _ => acc
                          end) calls None.

Definition wroteBody (calls : list WriterCall) : bool :=
  existsb (fun c => match c with CallWrite _ => true | _ => false end) calls.

Definition written (c : WriterCall) : Z :=
  match c with
  | CallWrite n => n
  | CallWriteHeader _ => 0
  end.

Definition validCode (c : WriterCall) : Prop :=
  match c with
  | CallWriteHeader code => 100 <= code <= 999
  | CallWrite _ => True
  end.

(** [sleepHandler], the computation of [ms]: [parsed] and [failed] are the
    two results of [strconv.Atoi] on the [ms] query parameter. *)
Definition sleepMillis (parsed : Z) (failed : bool) : Z :=
  let ms := if failed || (parsed <? 0) then 1000 else parsed in
  if 30000 <? ms then 30000 else ms.

Definition Millisecond : Z := 1000000.

(** [time.Duration(ms) * time.Millisecond]. *)
Definition sleepDuration (parsed : Z) (failed : bool) : Z :=
  Int64.mul (sleepMillis parsed failed) Millisecond.

(** [fmt.Sprintf("slept for %dms\n", ms)]. *)
Definition sleptMessage (ms : Z) : list ascii :=
  Slowloris.bytes "slept for " ++ Slowloris.formatInt ms
    ++ Slowloris.bytes "ms" ++ [Slowloris.LF].

(** [sleepHandler] behind [withLogging]: [cancelled] tells which case of
    the [select] fires, [n] is the count returned by the write.  Returns the
    writer as the log line will read it, and the body passed to [Write], if
    any. *)
Definition sleepHandler (parsed : Z) (failed : bool) (cancelled : bool)
           (n : Z) (rw : responseWriter)
  : responseWriter * option (list ascii) :=
  let ms := sleepMillis parsed failed in
  if cancelled then (rw, None)
  else (Write rw n, Some (sleptMessage ms)).

End Server.

(** * Properties *)

(** ** Arithmetic modulo 2^64 *)

Section Int64Facts.

Lemma wrap_spec (z : Z) :
  exists k : Z,
    Int64.wrap z = z + 18446744073709551616 * k /\
    -9223372036854775808 <= Int64.wrap z <= 9223372036854775807.
Proof.
  unfold Int64.wrap.
  change (2 ^ 63) with 9223372036854775808.
  change (2 ^ 64) with 18446744073709551616.
  pose proof (Z.div_mod (z + 9223372036854775808) 18446744073709551616) as Hdm.
  pose proof (Z.mod_pos_bound (z + 9223372036854775808) 18446744073709551616)
    as Hb.
  exists (- ((z + 9223372036854775808) / 18446744073709551616)). lia.
Qed.

End Int64Facts.

(** [unwrap] replaces every reduced value by a fresh integer together with
    the linear facts that characterise it, leaving a goal for [lia]. *)
Ltac unwrap_step :=
  match goal with
  | |- context [Int64.wrap ?t] =>
      let k := fresh "k" in
      let E := fresh "E" in
      let R := fresh "R" in
      let w := fresh "w" in
      destruct (wrap_spec t) as (k & E & R);
      set (w := Int64.wrap t) in *; clearbody w
  | H : context [Int64.wrap ?t] |- _ =>
      let k := fresh "k" in
      let E := fresh "E" in
      let R := fresh "R" in
      let w := fresh "w" in
      destruct (wrap_spec t) as (k & E & R);
      set (w := Int64.wrap t) in *; clearbody w
  end.

Ltac unwrap :=
  unfold Int64.add, Int64.sub, Int64.mul, Int64.quot, Int64.in_range,
    Int64.min_int, Int64.max_int in *;
  change (2 ^ 63) with 9223372036854775808 in *;
  repeat unwrap_step.

Section Int64More.

Lemma wrap_in_range (z : Z) : Int64.in_range (Int64.wrap z).
Proof. unwrap. lia. Qed.

Lemma wrap_small (z : Z) : Int64.in_range z -> Int64.wrap z = z.
Proof. intros H. unwrap. lia. Qed.

Lemma add_assoc_const (x a b : Z) :
  Int64.add (Int64.add x a) b = Int64.add x (a + b).
Proof. unwrap. lia. Qed.

End Int64More.

(** ** The connection-state tracker *)

Section Tracker.

Import Metrics.

Lemma connStates_decrementState (c : ConnStateCounter) (p : ConnState) :
  connStates (decrementState c p) = connStates c.
Proof. destruct p; reflexivity. Qed.

(** The mapping after one call: the entry is deleted on [StateClosed] and
    overwritten otherwise. *)
Lemma connStates_TrackConnState (c : ConnStateCounter) (k : Conn)
      (s : ConnState) :
  connStates (TrackConnState c k s) =
  match s with
  | StateClosed => delete k (connStates c)
  | _ => <[k := s]> (connStates c)
  end.
Proof.
  unfold TrackConnState.
  destruct (connStates c !! k) as [p|];
    destruct s; cbn; rewrite ?connStates_decrementState; reflexivity.
Qed.

Lemma run_snoc (calls : list Call) (x : Call) (c : ConnStateCounter) :
  run (calls ++ [x]) c = track (run calls c) x.
Proof. unfold run. rewrite fold_left_app. reflexivity. Qed.

Lemma lastState_snoc (k : Conn) (calls : list Call) (x : Call) :
  lastState k (calls ++ [x]) =
  if decide (fst x = k) then Some (snd x) else lastState k calls.
Proof. unfold lastState. rewrite fold_left_app. reflexivity. Qed.

(** The live mapping is a function of the history alone: it holds, for each
    identity, the most recent state reported unless that was
    [StateClosed]. *)
Lemma connStates_run (calls : list Call) (k : Conn) :
  connStates (run calls NewConnStateCounter) !! k =
  match lastState k calls with
  | None | Some StateClosed => None
  | Some s => Some s
  end.
Proof.
  induction calls as [|x calls IH] using rev_ind.
  - cbn. apply lookup_empty.
  - rewrite run_snoc, lastState_snoc. unfold track.
    rewrite connStates_TrackConnState.
    destruct x as [k' s]; cbn [fst snd].
    destruct (decide (k' = k)) as [->|Hne].
    + destruct s; first [apply lookup_insert_eq | apply lookup_delete_eq].
    + destruct s;
        first [rewrite lookup_insert_ne by exact Hne
              | rewrite lookup_delete_ne by exact Hne]; exact IH.
Qed.

Lemma isOpen_lookup (calls : list Call) (k : Conn) :
  isOpen k calls = false <->
  connStates (run calls NewConnStateCounter) !! k = None.
Proof.
  rewrite connStates_run. unfold isOpen.
  destruct (lastState k calls) as [[]|]; split; congruence.
Qed.

Lemma no_closed_entry_step (c : ConnStateCounter) (k : Conn) (s : ConnState) :
  (forall j, connStates c !! j <> Some StateClosed) ->
  forall j, connStates (TrackConnState c k s) !! j <> Some StateClosed.
Proof.
  intros H j. rewrite connStates_TrackConnState.
  destruct (decide (k = j)) as [->|Hne].
  - destruct s; rewrite ?lookup_insert_eq, ?lookup_delete_eq; congruence.
  - destruct s; rewrite ?lookup_insert_ne, ?lookup_delete_ne by exact Hne;
      apply H.
Qed.

(** One call keeps the balance when [StateNew] is reported exactly for an
    identity that is not in the mapping. *)
Lemma consistent_step (c : ConnStateCounter) (k : Conn) (s : ConnState) :
  (s = StateNew <-> connStates c !! k = None) ->
  consistent c -> consistent (TrackConnState c k s).
Proof.
  intros Hadm [Hbal Hnc]. split; [|apply no_closed_entry_step; exact Hnc].
  specialize (Hnc k).
  unfold balanced, liveSum, netAccepted, TrackConnState in *.
  destruct c as [n a i h acc cl m]; cbn in *.
  destruct (m !! k) as [p|] eqn:Hk.
  - assert (s <> StateNew) as Hs by (intros ->; destruct Hadm as [Hadm _];
      specialize (Hadm eq_refl); congruence).
    destruct p; try (exfalso; apply Hnc; exact Hk);
      destruct s; try congruence; cbn; unwrap; lia.
  - assert (s = StateNew) as -> by (apply Hadm; reflexivity).
    cbn. unwrap. lia.
Qed.

Lemma within_step (n : Z) (c : ConnStateCounter) (k : Conn) (s : ConnState) :
  0 <= n < 2 ^ 62 -> within n c -> within (n + 1) (TrackConnState c k s).
Proof.
  intros Hn Hw. unfold within, TrackConnState in *.
  change (2 ^ 62) with 4611686018427387904 in Hn.
  destruct c as [cn a i h acc cl m]; cbn in *.
  destruct (m !! k) as [p|]; [destruct p|]; destruct s; cbn;
    unwrap; lia.
Qed.

Lemma within_run (calls : list Call) :
  Z.of_nat (length calls) < 2 ^ 62 ->
  within (Z.of_nat (length calls)) (run calls NewConnStateCounter).
Proof.
  induction calls as [|x calls IH] using rev_ind; intros Hlen.
  - cbn. unfold within. cbn. lia.
  - rewrite length_app in *. cbn [length] in *.
    rewrite run_snoc.
    replace (Z.of_nat (length calls + 1)) with (Z.of_nat (length calls) + 1)
      by lia.
    apply within_step; [lia|]. apply IH. lia.
Qed.

Lemma balancedZ_of_balanced (n : Z) (c : ConnStateCounter) :
  n < 2 ^ 61 -> within n c ->
  balanced (GetSnapshot c) -> balancedZ (GetSnapshot c).
Proof.
  unfold within, balanced, balancedZ, liveSum, netAccepted.
  change (2 ^ 61) with 2305843009213693952.
  destruct c as [cn a i h acc cl m]; cbn. intros Hn Hw Hb.
  unwrap. lia.
Qed.

Lemma lifecycleFrom_app (past a b : list Call) :
  lifecycleFrom past (a ++ b) =
  lifecycleFrom past a && lifecycleFrom (past ++ a) b.
Proof.
  revert past. induction a as [|x a IH]; intros past; cbn.
  - rewrite app_nil_r. reflexivity.
  - rewrite IH, <- app_assoc. cbn. apply andb_assoc.
Qed.

Lemma consistent_run_from (past calls : list Call) :
  consistent (run past NewConnStateCounter) ->
  lifecycleFrom past calls = true ->
  consistent (run (past ++ calls) NewConnStateCounter).
Proof.
  revert past. induction calls as [|x calls IH]; intros past Hc Hl.
  - rewrite app_nil_r. exact Hc.
  - cbn in Hl. apply andb_true_iff in Hl as [Hx Hl].
    apply bool_decide_eq_true in Hx.
    replace (past ++ x :: calls) with ((past ++ [x]) ++ calls)
      by (rewrite <- app_assoc; reflexivity).
    apply IH; [|exact Hl].
    rewrite run_snoc. unfold track. apply consistent_step; [|exact Hc].
    rewrite Hx. apply isOpen_lookup.
Qed.

Lemma consistent_run (calls : list Call) :
  lifecycle calls = true -> consistent (run calls NewConnStateCounter).
Proof.
  intros Hl. apply (consistent_run_from [] calls); [|exact Hl].
  split; [reflexivity|]. intros k. cbn. rewrite lookup_empty. congruence.
Qed.

Lemma lifecycle_take (n : nat) (calls : list Call) :
  lifecycle calls = true -> lifecycle (take n calls) = true.
Proof.
  unfold lifecycle. intros Hl.
  rewrite <- (take_drop n calls) in Hl.
  rewrite lifecycleFrom_app in Hl.
  apply andb_true_iff in Hl as [Hl _]. exact Hl.
Qed.

Lemma reports_snoc (s : ConnState) (calls : list Call) (x : Call) :
  reports s (calls ++ [x]) =
  reports s calls + (if decide (snd x = s) then 1 else 0).
Proof.
  unfold reports. rewrite filter_app, length_app.
  cbn [filter list_filter]. destruct (decide (x.2 = s)); cbn; lia.
Qed.

Lemma reports_bounds (s : ConnState) (calls : list Call) :
  0 <= reports s calls <= Z.of_nat (length calls).
Proof.
  unfold reports. split; [lia|]. apply inj_le, length_filter.
Qed.

(** The two totals count, modulo 2^64, the [StateNew] and the
    [StateClosed] reports of the history. *)
Lemma totals_run (calls : list Call) :
  totalAccepted (run calls NewConnStateCounter)
    = Int64.wrap (reports StateNew calls) /\
  totalClosed (run calls NewConnStateCounter)
    = Int64.wrap (reports StateClosed calls).
Proof.
  induction calls as [|x calls [IHa IHc]] using rev_ind; [split; reflexivity|].
  rewrite run_snoc, !reports_snoc. unfold track, TrackConnState.
  generalize dependent (reports StateNew calls).
  generalize dependent (reports StateClosed calls). intros rc IHc rn IHa.
  destruct (run calls NewConnStateCounter) as [n a i h acc cl m].
  cbn [totalAccepted totalClosed connStates] in *. subst acc cl.
  destruct (m !! x.1) as [p|]; [destruct p|]; destruct (snd x); cbn;
    repeat case_decide; try congruence; split; unwrap; lia.
Qed.

(** The tracker called with arbitrary values of the integer type. *)

Lemma namedState_stateValue (s : ConnState) :
  namedState (stateValue s) = Some s.
Proof. destruct s; reflexivity. Qed.

Lemma namedState_inv (v : Z) (s : ConnState) :
  namedState v = Some s -> v = stateValue s.
Proof.
  intros H. destruct v as [|p|p]; [| |discriminate H].
  - injection H as <-. reflexivity.
  - do 3 (try destruct p as [p|p|]; try discriminate H);
      injection H as <-; reflexivity.
Qed.

Lemma TrackConnStateValue_named (c : ConnStateCounter) (k : Conn)
      (s : ConnState) :
  TrackConnStateValue c k (stateValue s) = TrackConnState c k s.
Proof.
  unfold TrackConnStateValue. rewrite namedState_stateValue. reflexivity.
Qed.

(** A value outside the five constants leaves the mapping as it was. *)
Lemma connStates_TrackConnStateValue (c : ConnStateCounter) (k : Conn)
      (v : Z) :
  connStates (TrackConnStateValue c k v) =
  match namedState v with
  | Some s => connStates (TrackConnState c k s)
  | None => connStates c
  end.
Proof.
  unfold TrackConnStateValue. destruct (namedState v); [reflexivity|].
  destruct (connStates c !! k); [apply connStates_decrementState|reflexivity].
Qed.

Lemma runValues_snoc (calls : list ValueCall) (x : ValueCall)
      (c : ConnStateCounter) :
  runValues (calls ++ [x]) c = trackValue (runValues calls c) x.
Proof. unfold runValues. rewrite fold_left_app. reflexivity. Qed.

Lemma named_snoc (calls : list ValueCall) (x : ValueCall) :
  named (calls ++ [x]) =
  named calls ++ match namedState (snd x) with
                 | Some s => [(fst x, s)]
                 | None => []
                 end.
Proof.
  unfold named. rewrite omap_app. cbn.
  destruct (namedState (snd x)); reflexivity.
Qed.

Lemma length_named (calls : list ValueCall) :
  (length (named calls) <= length calls)%nat.
Proof.
  induction calls as [|x calls IH]; [reflexivity|].
  unfold named in *. cbn.
  destruct (namedState (snd x)); cbn; lia.
Qed.

(** The mapping is decided by the calls that carry one of the constants. *)
Lemma connStates_runValues (calls : list ValueCall) (c : ConnStateCounter) :
  connStates (runValues calls c) = connStates (run (named calls) c).
Proof.
  induction calls as [|x calls IH] using rev_ind; [reflexivity|].
  rewrite runValues_snoc, named_snoc. unfold trackValue.
  rewrite connStates_TrackConnStateValue.
  destruct (namedState (snd x)) as [s|].
  - rewrite run_snoc. unfold track. cbn [fst snd].
    rewrite !connStates_TrackConnState, IH. reflexivity.
  - rewrite app_nil_r. exact IH.
Qed.

(** When every call carries one of the constants, the two readings of a
    history agree. *)
Lemma runValues_allNamed (calls : list ValueCall) (c : ConnStateCounter) :
  allNamed calls = true -> runValues calls c = run (named calls) c.
Proof.
  revert c. induction calls as [|x calls IH]; intros c H; [reflexivity|].
  cbn [allNamed forallb] in H. apply andb_prop in H as [Hx Hrest].
  apply bool_decide_eq_true_1 in Hx. destruct Hx as [s Hs].
  unfold named. cbn [omap list_omap]. rewrite Hs. cbn [fmap option_fmap option_map].
  cbn [runValues run fold_left]. unfold trackValue at 2, track at 2.
  unfold TrackConnStateValue. rewrite Hs. cbn [fst snd].
  apply (IH _ Hrest).
Qed.

Lemma totalAccepted_decrementState (c : ConnStateCounter) (p : ConnState) :
  totalAccepted (decrementState c p) = totalAccepted c.
Proof. destruct p; reflexivity. Qed.

(** [totalAccepted] moves on [StateNew], and only then. *)
Lemma totalAccepted_TrackConnState (c : ConnStateCounter) (k : Conn)
      (s : ConnState) :
  totalAccepted (TrackConnState c k s) =
  if decide (s = StateNew) then Int64.add (totalAccepted c) 1
  else totalAccepted c.
Proof.
  unfold TrackConnState.
  destruct (connStates c !! k) as [p|]; [destruct p|];
    destruct s; reflexivity.
Qed.

Lemma totalAccepted_TrackConnStateValue (c : ConnStateCounter) (k : Conn)
      (v : Z) :
  totalAccepted (TrackConnStateValue c k v) =
  if decide (v = 0) then Int64.add (totalAccepted c) 1
  else totalAccepted c.
Proof.
  unfold TrackConnStateValue.
  destruct (namedState v) as [s|] eqn:Hv.
  - apply namedState_inv in Hv as ->. rewrite totalAccepted_TrackConnState.
    destruct s; reflexivity.
  - destruct (decide (v = 0)) as [->|_]; [discriminate Hv|].
    destruct (connStates c !! k);
      [apply totalAccepted_decrementState|reflexivity].
Qed.

Lemma totalAccepted_runValues (calls : list ValueCall) (c : ConnStateCounter) :
  totalAccepted (runValues calls c) = totalAccepted (run (named calls) c).
Proof.
  induction calls as [|x calls IH] using rev_ind; [reflexivity|].
  rewrite runValues_snoc, named_snoc. unfold trackValue, TrackConnStateValue.
  destruct (namedState (snd x)) as [s|].
  - rewrite run_snoc. unfold track. cbn [fst snd].
    rewrite !totalAccepted_TrackConnState, IH. reflexivity.
  - rewrite app_nil_r, <- IH.
    destruct (connStates (runValues calls c) !! fst x);
      [apply totalAccepted_decrementState|reflexivity].
Qed.

End Tracker.

Section TrackerClaims.

Import Metrics.

(** C1, counterexample.  A single [StateActive] report for an identity the
    tracker has never seen raises the live count to 1 while
    [totalAccepted - totalClosed] stays 0: the balance does not hold for
    every sequence of calls. *)
Lemma tracker_unbalanced_without_new :
  let snap := GetSnapshot (run [(1%nat, StateActive)] NewConnStateCounter) in
  liveSum snap = 1 /\ netAccepted snap = 0 /\
  ~ balanced snap /\ ~ balancedZ snap.
Proof.
  cbv zeta. repeat split; try reflexivity; intros H; vm_compute in H;
    discriminate H.
Qed.

(** C1, as amended.  For every history of calls, an identity whose most
    recent report is [StateClosed] is absent from the live mapping.  For
    every history that follows the net/http lifecycle ([StateNew] is
    reported exactly for identities that are not open), after every
    transition the sum of the four live counters equals
    [totalAccepted - totalClosed]: in [int64] arithmetic always, and over
    the integers while fewer than 2^61 calls have been made. *)
Theorem tracker_balance_under_lifecycle (calls : list Call) :
  (forall conn,
      lastState conn calls = Some StateClosed ->
      connStates (run calls NewConnStateCounter) !! conn = None) /\
  (lifecycle calls = true ->
   forall n : nat,
     let snap := GetSnapshot (run (take n calls) NewConnStateCounter) in
     balanced snap /\
     (Z.of_nat (length calls) < 2 ^ 61 -> balancedZ snap)).
Proof.
  split.
  - intros conn Hlast. rewrite connStates_run, Hlast. reflexivity.
  - intros Hl n snap.
    pose proof (consistent_run _ (lifecycle_take n _ Hl)) as [Hb _].
    split; [exact Hb|]. intros Hlen.
    assert (Z.of_nat (length (take n calls)) <= Z.of_nat (length calls))
      as Hle by (rewrite length_take; lia).
    apply (balancedZ_of_balanced (Z.of_nat (length (take n calls))));
      [lia| |exact Hb].
    apply within_run.
    assert (2 ^ 61 < 2 ^ 62) by reflexivity. lia.
Qed.

(** A history of two connections following the lifecycle, checked after
    its third call and at its end. *)
Lemma tracker_balance_under_lifecycle_witness :
  let calls := [(1%nat, StateNew); (1%nat, StateActive); (2%nat, StateNew);
                (1%nat, StateIdle); (1%nat, StateClosed)] in
  connStates (run calls NewConnStateCounter) !! 1%nat = None /\
  balanced (GetSnapshot (run (take 3 calls) NewConnStateCounter)) /\
  balancedZ (GetSnapshot (run (take 3 calls) NewConnStateCounter)).
Proof.
  intros calls.
  destruct (tracker_balance_under_lifecycle calls) as [Habsent Hbal].
  split.
  - apply Habsent. reflexivity.
  - destruct (Hbal eq_refl 3%nat) as [Hb Hz].
    split; [exact Hb|]. apply Hz. reflexivity.
Defined.

(** C2, counterexample.  After [StateNew] has been reported for identity 1
    it is present in the mapping; reporting [StateNew] for it again raises
    [totalAccepted] from 1 to 2. *)
Lemma repeated_new_counts_again :
  let c := run [(1%nat, StateNew)] NewConnStateCounter in
  connStates c !! 1%nat = Some StateNew /\
  totalAccepted c = 1 /\
  totalAccepted (TrackConnState c 1%nat StateNew) = 2 /\
  totalAccepted (TrackConnState c 1%nat StateNew) <> totalAccepted c.
Proof. cbv zeta. repeat split; try reflexivity. discriminate. Qed.

(** C2, as amended.  [TrackConnState] adds one to [totalAccepted] on every
    [StateNew] report, whether or not the identity is already in the
    mapping, and leaves [totalAccepted] unchanged on every other report,
    whatever value it carries.  After any sequence of calls on a fresh
    tracker [totalAccepted] is therefore the number of [StateNew] reports
    in the sequence (modulo 2^64; exactly for fewer than 2^63 calls), an
    identity reported as new several times being counted each time. *)
Theorem accepted_counts_every_new (c : ConnStateCounter) (conn : Conn)
        (state : ConnState) (v : Z) (calls : list ValueCall) :
  totalAccepted (TrackConnState c conn state)
    = (if decide (state = StateNew) then Int64.add (totalAccepted c) 1
       else totalAccepted c) /\
  totalAccepted (TrackConnStateValue c conn v)
    = (if decide (v = 0) then Int64.add (totalAccepted c) 1
       else totalAccepted c) /\
  totalAccepted (runValues calls NewConnStateCounter)
    = Int64.wrap (reports StateNew (named calls)) /\
  (Z.of_nat (length calls) < 2 ^ 63 ->
   totalAccepted (runValues calls NewConnStateCounter)
     = reports StateNew (named calls)).
Proof.
  split; [apply totalAccepted_TrackConnState|].
  split; [apply totalAccepted_TrackConnStateValue|].
  assert (totalAccepted (runValues calls NewConnStateCounter)
          = Int64.wrap (reports StateNew (named calls))) as Hw.
  { rewrite totalAccepted_runValues. apply totals_run. }
  split; [exact Hw|]. intros Hlen. rewrite Hw. apply wrap_small.
  pose proof (reports_bounds StateNew (named calls)) as Hb.
  pose proof (length_named calls) as Hn.
  change (2 ^ 63) with 9223372036854775808 in Hlen.
  unfold Int64.in_range, Int64.min_int, Int64.max_int.
  change (2 ^ 63) with 9223372036854775808. lia.
Qed.

(** Identity 5 is reported new, active and then with a value outside the
    constants, identity 6 is reported new: two connections accepted. *)
Lemma accepted_counts_every_new_witness :
  totalAccepted (runValues strayHistory NewConnStateCounter) = 2.
Proof.
  destruct (accepted_counts_every_new NewConnStateCounter 5%nat StateNew 0
              strayHistory) as (_ & _ & _ & Hex).
  rewrite Hex; [vm_compute; reflexivity|reflexivity].
Defined.

End TrackerClaims.

(** ** The load generator: latency statistics *)

Section Percentiles.

Import Loadgen.

Lemma Zle_total : Total Z.le.
Proof. intros x y. lia. Qed.

Lemma sortSlice_sorted (l : list Z) : StronglySorted Z.le (sortSlice l).
Proof.
  apply StronglySorted_merge_sort; [apply _|exact Zle_total].
Qed.

Lemma sortSlice_perm (l : list Z) : sortSlice l ≡ₚ l.
Proof. apply merge_sort_Permutation. Qed.

Lemma sortSlice_length (l : list Z) : length (sortSlice l) = length l.
Proof. apply Permutation_length, sortSlice_perm. Qed.

(** In a sorted list, later positions hold larger values. *)
Lemma sorted_lookup_le (l : list Z) :
  StronglySorted Z.le l ->
  forall (i j : nat) (x y : Z),
    (i <= j)%nat -> l !! i = Some x -> l !! j = Some y -> x <= y.
Proof.
  induction 1 as [|a l Hs IH Ha]; intros i j x y Hij Hi Hj.
  - rewrite lookup_nil in Hi. discriminate.
  - destruct i as [|i], j as [|j]; cbn in Hi, Hj.
    + injection Hi as <-. injection Hj as <-. lia.
    + injection Hi as <-.
      apply list_elem_of_lookup_2 in Hj.
      rewrite Forall_forall in Ha. apply Ha. exact Hj.
    + lia.
    + apply (IH i j); [lia|exact Hi|exact Hj].
Qed.

Lemma minimum_le (l : list Z) (x : Z) : x ∈ l -> minimum l <= x.
Proof.
  unfold minimum. generalize (hd 0 l) as d.
  induction l as [|a l IH]; intros d Hx.
  - inversion Hx.
  - cbn. apply elem_of_cons in Hx as [->|Hx]; [lia|].
    specialize (IH d Hx). lia.
Qed.

Lemma le_maximum (l : list Z) (x : Z) : x ∈ l -> x <= maximum l.
Proof.
  unfold maximum. generalize (hd 0 l) as d.
  induction l as [|a l IH]; intros d Hx.
  - inversion Hx.
  - cbn. apply elem_of_cons in Hx as [->|Hx]; [lia|].
    specialize (IH d Hx). lia.
Qed.

(** The sum of a list lies between its length times any lower bound and its
    length times any upper bound of its elements. *)
Lemma sumZ_bounds (l : list Z) (lo hi : Z) :
  (forall x, x ∈ l -> lo <= x <= hi) ->
  Z.of_nat (length l) * lo <= sumZ l <= Z.of_nat (length l) * hi.
Proof.
  induction l as [|a l IH]; intros Hb; cbn [sumZ fold_right length].
  - lia.
  - assert (lo <= a <= hi) by (apply Hb; left).
    assert (Z.of_nat (length l) * lo <= sumZ l <= Z.of_nat (length l) * hi)
      as IH' by (apply IH; intros x Hx; apply Hb; right; exact Hx).
    unfold sumZ in IH'. lia.
Qed.

Lemma sumZ_perm (l1 l2 : list Z) : l1 ≡ₚ l2 -> sumZ l1 = sumZ l2.
Proof.
  induction 1 as [|x l1 l2 _ IH|x y l|l1 l2 l3 _ IH1 _ IH2];
    cbn [sumZ fold_right] in *; unfold sumZ in *; lia.
Qed.

Lemma sumDurations_from (l : list Z) (acc : Z) :
  fold_left Int64.add l (Int64.wrap acc) = Int64.wrap (acc + sumZ l).
Proof.
  revert acc. induction l as [|a l IH]; intros acc; cbn [fold_left sumZ fold_right].
  - f_equal. lia.
  - replace (Int64.add (Int64.wrap acc) a) with (Int64.wrap (acc + a))
      by (unwrap; lia).
    rewrite IH. unfold sumZ. f_equal. lia.
Qed.

(** The accumulated [sum] of [printResults] is the integer sum reduced to
    64 bits. *)
Lemma sumDurations_wrap (l : list Z) : sumDurations l = Int64.wrap (sumZ l).
Proof.
  unfold sumDurations.
  change 0 with (Int64.wrap 0) at 1. rewrite sumDurations_from. reflexivity.
Qed.

(** Without overflow, the index computed by [percentile] is the
    nearest-rank index and lies inside the slice. *)
Lemma percentile_index (n : nat) (p : Z) :
  (0 < n)%nat -> Z.of_nat n < 2 ^ 56 -> 0 <= p <= 100 ->
  Int64.quot (Int64.mul (Int64.sub (Z.of_nat n) 1) p) 100
    = Z.of_nat (rankIndex n p) /\
  (rankIndex n p < n)%nat.
Proof.
  intros Hn Hlen Hp.
  change (2 ^ 56) with 72057594037927936 in Hlen.
  unfold rankIndex.
  assert (0 <= (Z.of_nat n - 1) * p) as Hnum by nia.
  assert ((Z.of_nat n - 1) * p <= (Z.of_nat n - 1) * 100) as Hnum' by nia.
  assert (0 <= (Z.of_nat n - 1) * p / 100 <= Z.of_nat n - 1) as Hq.
  { split; [apply Z.div_pos; lia|].
    apply Z.div_le_upper_bound; lia. }
  split; [|lia].
  unfold Int64.quot, Int64.mul, Int64.sub.
  rewrite (wrap_small (Z.of_nat n - 1)) by (unwrap; lia).
  rewrite (wrap_small ((Z.of_nat n - 1) * p)) by (unwrap; lia).
  rewrite Z.quot_div_nonneg by lia.
  rewrite wrap_small by (unwrap; lia).
  lia.
Qed.

Lemma percentile_lookup (sorted : list Z) (p : Z) :
  sorted <> [] -> Z.of_nat (length sorted) < 2 ^ 56 -> 0 <= p <= 100 ->
  exists v, sorted !! rankIndex (length sorted) p = Some v /\
            percentile sorted p = Some v.
Proof.
  intros Hne Hlen Hp.
  assert (0 < length sorted)%nat as Hpos
    by (destruct sorted; [congruence|cbn; lia]).
  destruct (percentile_index (length sorted) p Hpos Hlen Hp) as [Hidx Hlt].
  destruct (lookup_lt_is_Some_2 sorted _ Hlt) as [v Hv].
  exists v. split; [exact Hv|].
  unfold percentile.
  destruct (Nat.eqb_spec (length sorted) 0) as [H0|_]; [lia|].
  rewrite Hidx.
  destruct (Z.ltb_spec (Z.of_nat (rankIndex (length sorted) p)) 0); [lia|].
  rewrite Nat2Z.id. exact Hv.
Qed.

Lemma quot_between (s n lo hi : Z) :
  0 < n -> n * lo <= s <= n * hi -> lo <= Z.quot s n <= hi.
Proof.
  intros Hn [Hlo Hhi]. split.
  - apply Z.quot_le_lower_bound; assumption.
  - apply Z.quot_le_upper_bound; assumption.
Qed.

(** [percentile] applied to the sorted samples returns the element at the
    nearest-rank index. *)
Lemma percentile_of_sortSlice (samples : list Z) (p : Z) :
  samples <> [] -> 0 <= p <= 100 ->
  Z.of_nat (length samples) < 2 ^ 56 ->
  exists v, sortSlice samples !! rankIndex (length samples) p = Some v /\
            percentile (sortSlice samples) p = Some v.
Proof.
  intros Hne Hp Hlen.
  rewrite <- (sortSlice_length samples).
  apply percentile_lookup; [|rewrite sortSlice_length; exact Hlen|exact Hp].
  intros Hnil. apply (f_equal length) in Hnil.
  rewrite sortSlice_length in Hnil. destruct samples; [congruence|].
  discriminate Hnil.
Qed.

(** What [printResults] reports for a non-empty sample list: the three
    nearest-rank elements of the sorted samples, and the accumulated sum
    divided by the count. *)
Lemma printResults_figures (s : Stats) :
  latencies s <> [] ->
  Z.of_nat (length (latencies s)) < 2 ^ 56 ->
  exists v50 v95 v99,
    sortSlice (latencies s) !! rankIndex (length (latencies s)) 50 = Some v50 /\
    sortSlice (latencies s) !! rankIndex (length (latencies s)) 95 = Some v95 /\
    sortSlice (latencies s) !! rankIndex (length (latencies s)) 99 = Some v99 /\
    printResults s =
    Some (mkReport (totalRequests s) (successCount s) (errorCount s)
            (Int64.quot (sumDurations (sortSlice (latencies s)))
                        (Z.of_nat (length (latencies s))))
            v50 v95 v99).
Proof.
  intros Hne Hlen.
  set (l := latencies s) in *.
  assert (0 < length l)%nat as Hpos by (destruct l; [congruence|cbn; lia]).
  destruct (percentile_of_sortSlice l 50 Hne ltac:(lia) Hlen)
    as (v50 & H50 & P50).
  destruct (percentile_of_sortSlice l 95 Hne ltac:(lia) Hlen)
    as (v95 & H95 & P95).
  destruct (percentile_of_sortSlice l 99 Hne ltac:(lia) Hlen)
    as (v99 & H99 & P99).
  exists v50, v95, v99. split; [exact H50|]. split; [exact H95|].
  split; [exact H99|].
  unfold printResults. fold l.
  destruct (Nat.ltb_spec 0 (length l)) as [_|]; [|lia].
  rewrite P50, P95, P99, sortSlice_length. reflexivity.
Qed.

Lemma rankIndex_mono (n : nat) (p q : Z) :
  (0 < n)%nat -> 0 <= p <= q -> (rankIndex n p <= rankIndex n q)%nat.
Proof.
  intros Hn Hpq. unfold rankIndex. apply Z2Nat.inj_le.
  - apply Z.div_pos; nia.
  - apply Z.div_pos; nia.
  - apply Z.div_le_mono; nia.
Qed.

(** When the sum of the samples fits in 64 bits, the computed average is
    the truncated quotient of the sum by the count and lies between the
    smallest and the largest sample. *)
Lemma average_between (l : list Z) :
  l <> [] -> Int64.in_range (sumZ l) ->
  Int64.quot (sumDurations (sortSlice l)) (Z.of_nat (length l))
    = Z.quot (sumZ l) (Z.of_nat (length l)) /\
  minimum l <= Z.quot (sumZ l) (Z.of_nat (length l)) <= maximum l.
Proof.
  intros Hne Hsum.
  assert (0 < length l)%nat as Hpos by (destruct l; [congruence|cbn; lia]).
  assert (Z.of_nat (length l) * minimum l <= sumZ l
          <= Z.of_nat (length l) * maximum l) as Hb.
  { apply sumZ_bounds. intros x Hx. split; [apply minimum_le|apply le_maximum];
      exact Hx. }
  split; [|apply quot_between; [lia|exact Hb]].
  rewrite sumDurations_wrap, (sumZ_perm _ _ (sortSlice_perm l)),
    (wrap_small _ Hsum).
  unfold Int64.quot. apply wrap_small.
  unfold Int64.in_range, Int64.min_int, Int64.max_int in *.
  apply quot_between; [lia|]. nia.
Qed.

Lemma minimum_in (l : list Z) : l <> [] -> minimum l ∈ l.
Proof.
  destruct l as [|a l]; [congruence|]. intros _. unfold minimum.
  cbn [hd].
  assert (forall (l0 : list Z) (d0 : Z),
             fold_right Z.min d0 l0 = d0 \/ fold_right Z.min d0 l0 ∈ l0)
    as Haux.
  { induction l0 as [|b l0 IH]; intros d0; cbn; [auto|].
    destruct (IH d0) as [H|H];
      destruct (Z.min_spec b (fold_right Z.min d0 l0)) as [[_ ->]|[_ ->]];
      try (right; left; fail); try (right; right; exact H).
    left. exact H. }
  destruct (Haux (a :: l) a) as [H|H]; [rewrite H; left|exact H].
Qed.

Lemma maximum_in (l : list Z) : l <> [] -> maximum l ∈ l.
Proof.
  destruct l as [|a l]; [congruence|]. intros _. unfold maximum.
  cbn [hd].
  assert (forall (l0 : list Z) (d0 : Z),
             fold_right Z.max d0 l0 = d0 \/ fold_right Z.max d0 l0 ∈ l0)
    as Haux.
  { induction l0 as [|b l0 IH]; intros d0; cbn; [auto|].
    destruct (IH d0) as [H|H];
      destruct (Z.max_spec b (fold_right Z.max d0 l0)) as [[_ ->]|[_ ->]];
      try (right; left; fail); try (right; right; exact H).
    left. exact H. }
  destruct (Haux (a :: l) a) as [H|H]; [rewrite H; left|exact H].
Qed.

End Percentiles.

Section Rounding.

Import Loadgen.

Lemma unsigned_small (x : Z) : 0 <= x < 2 ^ 63 -> Int64.unsigned x = x.
Proof.
  intros H. unfold Int64.unsigned. apply Z.mod_small.
  change (2 ^ 63) with 9223372036854775808 in H.
  change (2 ^ 64) with 18446744073709551616. lia.
Qed.

(** [lessThanHalf] on the values [Round] passes to it. *)
Lemma lessThanHalf_small (x : Z) :
  0 <= x < 1000 -> lessThanHalf x 1000 = (x <? 500).
Proof.
  intros H. unfold lessThanHalf.
  rewrite !unsigned_small by (change (2 ^ 63) with 9223372036854775808; lia).
  rewrite Z.mod_small by (change (2 ^ 64) with 18446744073709551616; lia).
  destruct (Z.ltb_spec (x + x) 1000), (Z.ltb_spec x 500); lia.
Qed.

(** Rounding to the microsecond, case by case: [q] thousands and a rest
    [r] of the sign of [d]; the nearer multiple of 1000 is taken, the one
    away from zero at the half, and the end of the 64-bit range where that
    multiple lies beyond it. *)
Lemma shown_cases (d : Z) :
  Int64.in_range d ->
  exists q r : Z,
    d = 1000 * q + r /\
    ((0 <= d /\ 0 <= r < 1000 /\
      ((r < 500 /\ shown d = 1000 * q) \/
       (500 <= r /\ 1000 * q + 1000 <= Int64.max_int /\
        shown d = 1000 * q + 1000) \/
       (500 <= r /\ Int64.max_int < 1000 * q + 1000 /\
        shown d = Int64.max_int))) \/
     (d < 0 /\ - 1000 < r <= 0 /\
      ((- 500 < r /\ shown d = 1000 * q) \/
       (r <= - 500 /\ Int64.min_int <= 1000 * q - 1000 /\
        shown d = 1000 * q - 1000) \/
       (r <= - 500 /\ 1000 * q - 1000 < Int64.min_int /\
        shown d = Int64.min_int)))).
Proof.
  intros Hd. exists (Z.quot d 1000), (Z.rem d 1000).
  pose proof (Z.quot_rem' d 1000) as Hqr.
  split; [exact Hqr|].
  unfold shown, Round, Microsecond.
  change (1000 <=? 0) with false. cbv iota.
  set (q := Z.quot d 1000) in *. set (r := Z.rem d 1000) in *.
  destruct (Z.ltb_spec d 0) as [Hneg|Hpos].
  - right. split; [exact Hneg|].
    assert (- 1000 < r <= 0) as Hr.
    { subst r. pose proof (Z.rem_bound_pos_neg d 1000). lia. }
    split; [exact Hr|]. cbv zeta.
    assert (Int64.neg r = - r) as ->.
    { unfold Int64.neg. apply wrap_small. unwrap. lia. }
    rewrite lessThanHalf_small by lia.
    destruct (Z.ltb_spec (- r) 500) as [Hh|Hh].
    + left. split; [lia|]. unwrap. lia.
    + right.
      destruct (Z.ltb_spec (Int64.add (Int64.sub d 1000) (- r)) d) as [Hlt|Hge].
      * left. split; [lia|]. revert Hlt. unwrap. lia.
      * right. split; [lia|]. revert Hge. unwrap. lia.
  - left. split; [exact Hpos|].
    assert (0 <= r < 1000) as Hr.
    { subst r. pose proof (Z.rem_bound_pos_pos d 1000). lia. }
    split; [exact Hr|]. cbv zeta.
    rewrite lessThanHalf_small by lia.
    destruct (Z.ltb_spec r 500) as [Hh|Hh].
    + left. split; [lia|]. unwrap. lia.
    + right.
      destruct (Z.ltb_spec d (Int64.sub (Int64.add d 1000) r)) as [Hlt|Hge].
      * left. split; [lia|]. revert Hlt. unwrap. lia.
      * right. split; [lia|]. revert Hge. unwrap. lia.
Qed.

(** A printed figure is a 64-bit duration within 500 ns of the computed
    one. *)
Lemma shown_near (d : Z) :
  Int64.in_range d -> Int64.in_range (shown d) /\ - 500 <= shown d - d <= 500.
Proof.
  intros Hd. destruct (shown_cases d Hd) as (q & r & Hqr & H).
  unfold Int64.in_range, Int64.min_int, Int64.max_int in *.
  change (2 ^ 63) with 9223372036854775808 in *. lia.
Qed.

(** Rounding keeps the order. *)
Lemma shown_mono (d e : Z) :
  Int64.in_range d -> Int64.in_range e -> d <= e -> shown d <= shown e.
Proof.
  intros Hd He Hle.
  destruct (shown_cases d Hd) as (q & r & Hqr & H).
  destruct (shown_cases e He) as (q' & r' & Hqr' & H').
  unfold Int64.in_range, Int64.min_int, Int64.max_int in *.
  change (2 ^ 63) with 9223372036854775808 in *. lia.
Qed.

End Rounding.

Section LatencyClaims.

Import Loadgen.

(** C3.  [percentile] over the slice sorted by [printResults] is the
    nearest-rank percentile: the sorted slice is the ascending
    rearrangement of the samples and, for a non-empty sample list (of a
    length a Go slice can have) and [p] between 0 and 100, the value
    returned is the element at index [floor((n-1)*p/100)], which is what
    the report shows for [p] = 50, 95 and 99; for an empty slice the value
    is 0; for the samples 1ms..10ms the report shows P50 = 5ms, P95 = 9ms
    and P99 = 9ms. *)
Theorem percentile_nearest_rank :
  (forall (samples : list Z) (p : Z),
      samples <> [] -> 0 <= p <= 100 ->
      Z.of_nat (length samples) < 2 ^ 56 ->
      let sorted := sortSlice samples in
      StronglySorted Z.le sorted /\ sorted ≡ₚ samples /\
      exists v, sorted !! rankIndex (length samples) p = Some v /\
                percentile sorted p = Some v) /\
  (forall s : Stats,
      latencies s <> [] -> Z.of_nat (length (latencies s)) < 2 ^ 56 ->
      let sorted := sortSlice (latencies s) in
      let n := length (latencies s) in
      exists r, printResults s = Some r /\
                sorted !! rankIndex n 50 = Some (p50 r) /\
                sorted !! rankIndex n 95 = Some (p95 r) /\
                sorted !! rankIndex n 99 = Some (p99 r)) /\
  (forall p : Z, percentile (sortSlice []) p = Some 0) /\
  (exists r, printResults (mkStats 10 10 0 (ms 55) tenSamples) = Some r /\
             p50 r = ms 5 /\ p95 r = ms 9 /\ p99 r = ms 9).
Proof.
  split; [|split; [|split]].
  - intros samples p Hne Hp Hlen sorted. subst sorted.
    split; [apply sortSlice_sorted|]. split; [apply sortSlice_perm|].
    apply percentile_of_sortSlice; assumption.
  - intros s Hne Hlen sorted n. subst sorted n.
    destruct (printResults_figures s Hne Hlen)
      as (v50 & v95 & v99 & H50 & H95 & H99 & Hr).
    eexists. split; [exact Hr|]. cbn [p50 p95 p99]. auto.
  - intros p. reflexivity.
  - eexists. split; [vm_compute; reflexivity|]. repeat split; reflexivity.
Qed.

(** The median of the ten samples, obtained from the general statement. *)
Lemma percentile_nearest_rank_witness :
  percentile (sortSlice tenSamples) 50 = Some (ms 5).
Proof.
  destruct (proj1 percentile_nearest_rank tenSamples 50) as (_ & _ & v & Hv & Hp).
  - discriminate.
  - lia.
  - reflexivity.
  - rewrite Hp, <- Hv. reflexivity.
Defined.

(** C7, counterexample.  One sample of 100.5 microseconds: the report
    prints each figure rounded to the microsecond, half away from zero, so
    P99 and the average are both shown as 101 microseconds, above the
    largest sample. *)
Lemma printed_figures_above_maximum :
  let samples := [100500] in
  exists r, printResults (mkStats 1 1 0 100500 samples) = Some r /\
            p99 (printedReport r) = 101000 /\
            avgLatency (printedReport r) = 101000 /\
            maximum samples = 100500 /\
            ~ (p99 (printedReport r) <= maximum samples) /\
            ~ (avgLatency (printedReport r) <= maximum samples).
Proof.
  cbv zeta. eexists. split; [vm_compute; reflexivity|].
  repeat split; try reflexivity; intros H; vm_compute in H; apply H;
    reflexivity.
Qed.

(** C7, second counterexample.  Two samples of 2^62 ns each: their sum does
    not fit in 64 bits, the accumulated [sum] wraps to -2^63 and the
    computed average, -2^62, is below the smallest sample. *)
Lemma average_below_minimum_on_overflow :
  let samples := [2 ^ 62; 2 ^ 62] in
  exists r, printResults (mkStats 2 2 0 0 samples) = Some r /\
            avgLatency r = - 2 ^ 62 /\
            minimum samples = 2 ^ 62 /\
            ~ (minimum samples <= avgLatency r).
Proof.
  cbv zeta. eexists. split; [vm_compute; reflexivity|].
  repeat split; try reflexivity. cbn. intros H. vm_compute in H. apply H.
  reflexivity.
Qed.

(** C7, as amended.  For every non-empty sample list (of a length a Go
    slice can have) the computed figures satisfy P50 <= P95 <= P99 <= max,
    the percentiles being the nearest-rank elements of the sorted samples;
    and when the sum of the samples fits in a signed 64-bit duration, the
    computed average is that sum divided by the count and
    min <= average <= max.  The figures the report prints are these
    rounded to the microsecond: each is within 500 ns of the computed one,
    they satisfy P50 <= P95 <= P99 <= max rounded and, the sum fitting,
    min rounded <= average <= max rounded. *)
Theorem report_figures_ordered (s : Stats) :
  latencies s <> [] ->
  Z.of_nat (length (latencies s)) < 2 ^ 56 ->
  exists r,
    printResults s = Some r /\
    p50 r <= p95 r <= p99 r /\ p99 r <= maximum (latencies s) /\
    (Int64.in_range (sumZ (latencies s)) ->
     avgLatency r
       = Z.quot (sumZ (latencies s)) (Z.of_nat (length (latencies s))) /\
     minimum (latencies s) <= avgLatency r <= maximum (latencies s)) /\
    (Forall Int64.in_range (latencies s) ->
     let q := printedReport r in
     p50 q <= p95 q <= p99 q /\
     p99 q <= shown (maximum (latencies s)) /\
     - 500 <= p50 q - p50 r <= 500 /\
     - 500 <= p95 q - p95 r <= 500 /\
     - 500 <= p99 q - p99 r <= 500 /\
     - 500 <= avgLatency q - avgLatency r <= 500 /\
     (Int64.in_range (sumZ (latencies s)) ->
      shown (minimum (latencies s)) <= avgLatency q
      <= shown (maximum (latencies s)))).
Proof.
  intros Hne Hlen.
  destruct (printResults_figures s Hne Hlen)
    as (v50 & v95 & v99 & H50 & H95 & H99 & Hr).
  set (l := latencies s) in *.
  assert (0 < length l)%nat as Hpos by (destruct l; [congruence|cbn; lia]).
  eexists. split; [exact Hr|]. cbn [p50 p95 p99 avgLatency printedReport].
  pose proof (sortSlice_sorted l) as Hs.
  assert (v50 <= v95) as H1
    by (apply (sorted_lookup_le _ Hs _ _ _ _
                 (rankIndex_mono (length l) 50 95 Hpos ltac:(lia)) H50 H95)).
  assert (v95 <= v99) as H2
    by (apply (sorted_lookup_le _ Hs _ _ _ _
                 (rankIndex_mono (length l) 95 99 Hpos ltac:(lia)) H95 H99)).
  assert (forall i v, sortSlice l !! i = Some v -> v ∈ l) as Hin.
  { intros i v Hv. rewrite <- (sortSlice_perm l).
    eapply list_elem_of_lookup_2. exact Hv. }
  assert (v99 <= maximum l) as H3 by (apply le_maximum, (Hin _ _ H99)).
  split; [lia|]. split; [exact H3|]. split.
  - intros Hsum. destruct (average_between l Hne Hsum) as [Havg Hq].
    rewrite Havg. split; [reflexivity|exact Hq].
  - intros Hall. rewrite Forall_forall in Hall.
    pose proof (Hall _ (Hin _ _ H50)) as R50.
    pose proof (Hall _ (Hin _ _ H95)) as R95.
    pose proof (Hall _ (Hin _ _ H99)) as R99.
    pose proof (Hall _ (maximum_in l Hne)) as Rmax.
    pose proof (Hall _ (minimum_in l Hne)) as Rmin.
    assert (Int64.in_range
              (Int64.quot (sumDurations (sortSlice l)) (Z.of_nat (length l))))
      as Ravg by apply wrap_in_range.
    split; [split; apply shown_mono; assumption|].
    split; [apply shown_mono; assumption|].
    split; [apply shown_near, R50|]. split; [apply shown_near, R95|].
    split; [apply shown_near, R99|]. split; [apply shown_near, Ravg|].
    intros Hsum. destruct (average_between l Hne Hsum) as [Havg Hq].
    rewrite Havg in *.
    split; apply shown_mono; try assumption; lia.
Qed.

(** Three samples given out of order; the median, 2.5 microseconds, is
    printed as 3. *)
Lemma report_figures_ordered_witness :
  exists r,
    printResults (mkStats 3 3 0 7500 [3501; 1499; 2500]) = Some r /\
    p50 r <= p95 r <= p99 r /\ avgLatency r = 2500 /\
    p50 (printedReport r) <= p95 (printedReport r) <= p99 (printedReport r) /\
    - 500 <= p50 (printedReport r) - p50 r <= 500.
Proof.
  destruct (report_figures_ordered (mkStats 3 3 0 7500 [3501; 1499; 2500]))
    as (r & Hr & Hord & _ & Havg & Hshown).
  - discriminate.
  - reflexivity.
  - exists r. split; [exact Hr|]. split; [exact Hord|].
    destruct Havg as [Havg _]; [split; discriminate|].
    split; [rewrite Havg; reflexivity|].
    destruct Hshown as (Hp & _ & Hn & _).
    + repeat constructor; discriminate.
    + split; [exact Hp|exact Hn].
Defined.

End LatencyClaims.

(** ** The load generator: shared counters under interleaving *)

Section Workers.

Import Loadgen.

Lemma inFlight_app (ws1 ws2 : list Pc) :
  inFlight (ws1 ++ ws2) = inFlight ws1 + inFlight ws2.
Proof.
  unfold inFlight, sumZ. induction ws1 as [|a ws1 IH]; cbn [app map fold_right].
  - lia.
  - rewrite IH. lia.
Qed.

Lemma inFlight_insert (ws : list Pc) (w : nat) (p p' : Pc) :
  ws !! w = Some p ->
  inFlight (<[w := p']> ws) = inFlight ws - uncounted p + uncounted p'.
Proof.
  intros Hw.
  rewrite insert_take_drop by (eapply lookup_lt_Some; exact Hw).
  rewrite <- (take_drop_middle ws w p Hw) at 3.
  rewrite !inFlight_app.
  change (inFlight (p' :: drop (S w) ws))
    with (uncounted p' + inFlight (drop (S w) ws)).
  change (inFlight (p :: drop (S w) ws))
    with (uncounted p + inFlight (drop (S w) ws)).
  lia.
Qed.

Lemma inFlight_nonneg (ws : list Pc) : 0 <= inFlight ws <= Z.of_nat (length ws).
Proof.
  unfold inFlight, sumZ. induction ws as [|a ws IH]; cbn [map fold_right length].
  - lia.
  - destruct a; cbn [uncounted]; lia.
Qed.

Lemma inFlight_quiescent (wd : World) :
  quiescent wd = true -> inFlight (workers wd) = 0.
Proof.
  unfold quiescent, inFlight, sumZ.
  induction (workers wd) as [|a ws IH]; cbn [forallb map fold_right];
    [reflexivity|].
  intros H. apply andb_true_iff in H as [Ha Hws].
  rewrite (IH Hws). destruct a; cbn in *; first [reflexivity|discriminate].
Qed.

Lemma inFlight_replicate (n : nat) : inFlight (replicate n LoopTop) = 0.
Proof. unfold inFlight, sumZ. induction n; cbn; [reflexivity|]. exact IHn. Qed.

Lemma accounted_step (wd : World) (e : Event) :
  accounted wd -> accounted (step wd e).
Proof.
  unfold accounted. intros H. destruct e as [|w r l]; cbn; [exact H|].
  destruct (workers wd !! w) as [p|] eqn:Hw; [|exact H].
  destruct (workerStep (ctxClosed wd) r l (stats wd) p) as [s' p'] eqn:Hs.
  cbn -[inFlight]. rewrite (inFlight_insert _ _ _ p' Hw).
  destruct wd as [[t sc ec tl ls] closed ws]; cbn -[inFlight] in *.
  generalize dependent (inFlight ws). intros f H.
  destruct p as [|e0 l0|e0 l0|[e0|] l0|l0|]; cbn in Hs;
    try destruct closed; inversion Hs; subst; cbn; unwrap; lia.
Qed.

Lemma exec_snoc (trace : list Event) (e : Event) (wd : World) :
  exec (trace ++ [e]) wd = step (exec trace wd) e.
Proof. unfold exec. rewrite fold_left_app. reflexivity. Qed.

Lemma accounted_exec (trace : list Event) (concurrency : nat) :
  accounted (exec trace (start concurrency)).
Proof.
  induction trace as [|e trace IH] using rev_ind.
  - unfold accounted. cbn -[inFlight]. rewrite inFlight_replicate. reflexivity.
  - rewrite exec_snoc. apply accounted_step, IH.
Qed.

Lemma countersWithin_step (n : Z) (wd : World) (e : Event) :
  0 <= n < 2 ^ 62 ->
  countersWithin n (stats wd) -> countersWithin (n + 1) (stats (step wd e)).
Proof.
  unfold countersWithin. change (2 ^ 62) with 4611686018427387904.
  intros Hn H. destruct e as [|w r l]; cbn; [lia|].
  destruct (workers wd !! w) as [p|] eqn:Hw; [|lia].
  destruct (workerStep (ctxClosed wd) r l (stats wd) p) as [s' p'] eqn:Hs.
  cbn. destruct wd as [[t sc ec tl ls] closed ws]; cbn in *.
  destruct p as [|e0 l0|e0 l0|[e0|] l0|l0|]; cbn in Hs;
    try destruct closed; inversion Hs; subst; cbn; unwrap; lia.
Qed.

Lemma countersWithin_exec (trace : list Event) (concurrency : nat) :
  Z.of_nat (length trace) < 2 ^ 62 ->
  countersWithin (Z.of_nat (length trace))
                 (stats (exec trace (start concurrency))).
Proof.
  induction trace as [|e trace IH] using rev_ind; intros Hlen.
  - unfold countersWithin. cbn. lia.
  - rewrite length_app in *. cbn [length] in *. rewrite exec_snoc.
    replace (Z.of_nat (length trace + 1)) with (Z.of_nat (length trace) + 1)
      by lia.
    apply countersWithin_step; [lia|]. apply IH. lia.
Qed.

Lemma doRequest_500 (drained : bool) :
  exists e, doRequest (Response 500 drained) = Some e.
Proof. destruct drained; cbn; eauto. Qed.

Lemma allFailing_step (wd : World) (e : Event) :
  answeredWith 500 e -> allFailing wd -> allFailing (step wd e).
Proof.
  unfold allFailing. intros He (Hf & Hsc & Hl & Hr).
  destruct e as [|w r l]; cbn; [auto|].
  destruct (workers wd !! w) as [p|] eqn:Hw; [|auto].
  destruct He as [drained ->].
  destruct (doRequest_500 drained) as [err Herr].
  assert (failing p) as Hp
    by (rewrite Forall_forall in Hf; apply Hf;
        eapply list_elem_of_lookup_2; exact Hw).
  destruct (workerStep (ctxClosed wd) (Response 500 drained) l (stats wd) p)
    as [s' p'] eqn:Hs.
  cbn [stats workers].
  assert (failing p' /\ successCount s' = 0 /\ latencies s' = [] /\
          Int64.in_range (errorCount s')) as (Hp' & ? & ? & ?).
  { destruct wd as [[t sc ec tl ls] closed ws]; cbn in *.
    destruct p as [|e0 l0|e0 l0|[e0|] l0|l0|]; cbn in Hs, Hp;
      try destruct closed; try rewrite Herr in Hs; inversion Hs; subst;
      cbn; try tauto; repeat split; auto; try apply wrap_in_range.
    all: destruct e0; cbn in *; tauto. }
  split; [apply Forall_insert; assumption|]. auto.
Qed.

Lemma allFailing_exec (trace : list Event) (concurrency : nat) :
  Forall (answeredWith 500) trace ->
  allFailing (exec trace (start concurrency)).
Proof.
  induction trace as [|e trace IH] using rev_ind; intros Hall.
  - unfold allFailing. cbn. repeat split.
    + apply Forall_replicate. exact I.
    + unfold Int64.in_range, Int64.min_int, Int64.max_int. lia.
    + unfold Int64.in_range, Int64.min_int, Int64.max_int. lia.
  - apply Forall_app in Hall as [Htr He].
    rewrite exec_snoc. apply allFailing_step.
    + apply Forall_cons in He as [He _]. exact He.
    + apply IH, Htr.
Qed.

End Workers.

Section WorkerClaims.

Import Loadgen.

Lemma exec_same_worker (k : nat) (wd : World) (w : nat) (r : Reply)
      (latency : Z) (p : Pc) :
  workers wd !! w = Some p ->
  exec (replicate k (Sched w r latency)) wd =
  mkWorld (fst (workerSteps k (ctxClosed wd) r latency (stats wd) p))
          (ctxClosed wd)
          (<[w := snd (workerSteps k (ctxClosed wd) r latency (stats wd) p)]>
             (workers wd)).
Proof.
  revert wd p. induction k as [|k IH]; intros wd p Hw.
  - cbn. rewrite (list_insert_id _ _ _ Hw). destruct wd; reflexivity.
  - cbn [replicate workerSteps]. unfold exec in *. cbn [fold_left].
    assert (w < length (workers wd))%nat as Hlt
      by (eapply lookup_lt_Some; exact Hw).
    unfold step at 2. rewrite Hw.
    destruct (workerStep (ctxClosed wd) r latency (stats wd) p)
      as [s1 p1].
    rewrite (IH _ p1) by (apply list_lookup_insert_eq; exact Hlt).
    cbn [stats ctxClosed workers].
    rewrite list_insert_insert_eq. reflexivity.
Qed.

Lemma quiescent_insert (wd : World) (w : nat) (s : Stats) (p : Pc) :
  quiescent wd = true -> midIteration p = false ->
  quiescent (mkWorld s (ctxClosed wd) (<[w := p]> (workers wd))) = true.
Proof.
  unfold quiescent. cbn [workers]. intros Hq Hp.
  revert w. induction (workers wd) as [|a ws IH]; intros w; [exact Hq|].
  cbn [forallb] in Hq. apply andb_true_iff in Hq as [Ha Hws].
  destruct w as [|w]; cbn [insert list_insert forallb].
  - rewrite Hp, Hws. reflexivity.
  - rewrite Ha. cbn [andb]. apply (IH Hws).
Qed.

(** C8.  At every quiescent point of every interleaving of any number of
    workers, [totalRequests == successCount + errorCount] (as Go evaluates
    it, and over the integers while fewer than 2^62 actions have run); and
    a worker at the top of its loop that completes one more iteration adds
    exactly 1 to [totalRequests] and exactly 1 to exactly one of
    [successCount] and [errorCount], leaving the process quiescent. *)
Theorem counters_balance_when_quiescent (concurrency : nat)
        (trace : list Event) (w : nat) (r : Reply) (latency : Z) :
  let wd := exec trace (start concurrency) in
  quiescent wd = true ->
  totalRequests (stats wd)
    = Int64.add (successCount (stats wd)) (errorCount (stats wd)) /\
  (Z.of_nat (length trace) < 2 ^ 62 ->
   totalRequests (stats wd) = successCount (stats wd) + errorCount (stats wd)) /\
  (workers wd !! w = Some LoopTop -> ctxClosed wd = false ->
   let wd' := exec (oneIteration w r latency) wd in
   quiescent wd' = true /\
   totalRequests (stats wd') = Int64.add (totalRequests (stats wd)) 1 /\
   match doRequest r with
   | Some _ =>
       errorCount (stats wd') = Int64.add (errorCount (stats wd)) 1 /\
       successCount (stats wd') = successCount (stats wd)
   | None =>
       successCount (stats wd') = Int64.add (successCount (stats wd)) 1 /\
       errorCount (stats wd') = errorCount (stats wd)
   end).
Proof.
  intros wd Hq.
  pose proof (accounted_exec trace concurrency) as Hacc.
  fold wd in Hacc. unfold accounted in Hacc.
  rewrite (inFlight_quiescent wd Hq), Z.add_0_r in Hacc.
  split; [exact Hacc|]. split.
  - intros Hlen.
    pose proof (countersWithin_exec trace concurrency Hlen) as Hw.
    fold wd in Hw. unfold countersWithin in Hw.
    change (2 ^ 62) with 4611686018427387904 in Hlen.
    rewrite Hacc. apply wrap_small.
    unfold Int64.in_range, Int64.min_int, Int64.max_int.
    change (2 ^ 63) with 9223372036854775808. lia.
  - intros Hw Hopen wd'. subst wd'. unfold oneIteration.
    rewrite (exec_same_worker _ wd w r latency LoopTop Hw), Hopen.
    destruct (doRequest r) as [e|] eqn:Hr; cbn [workerSteps workerStep];
      rewrite Hr; cbn [fst snd stats totalRequests errorCount successCount].
    + split; [|split; [reflexivity|split; reflexivity]].
      rewrite <- Hopen. apply quiescent_insert; [exact Hq|reflexivity].
    + split; [|split; [reflexivity|split; reflexivity]].
      rewrite <- Hopen. apply quiescent_insert; [exact Hq|reflexivity].
Qed.

Lemma counters_balance_when_quiescent_witness :
  let wd := exec twoWorkers (start 2) in
  allExited wd = true /\
  totalRequests (stats wd) = 2 /\
  totalRequests (stats wd) = successCount (stats wd) + errorCount (stats wd).
Proof.
  intros wd.
  destruct (counters_balance_when_quiescent 2 twoWorkers 0 GetFailed 0
              eq_refl) as (_ & Hz & _).
  split; [reflexivity|]. split; [reflexivity|]. apply Hz. reflexivity.
Defined.

(** C6.  If every request is answered with HTTP status 500, then at every
    quiescent point (in particular once all workers have returned)
    [errorCount == totalRequests], [successCount == 0], no latency sample
    has been recorded, and the report shows 0 for the average and for the
    three percentiles. *)
Theorem all_500_report (concurrency : nat) (trace : list Event) :
  Forall (answeredWith 500) trace ->
  let wd := exec trace (start concurrency) in
  quiescent wd = true ->
  errorCount (stats wd) = totalRequests (stats wd) /\
  successCount (stats wd) = 0 /\
  latencies (stats wd) = [] /\
  printResults (stats wd)
    = Some (mkReport (totalRequests (stats wd)) 0 (totalRequests (stats wd))
                     0 0 0 0).
Proof.
  intros Hall wd Hq.
  pose proof (accounted_exec trace concurrency) as Hacc.
  pose proof (allFailing_exec trace concurrency Hall) as (_ & Hsc & Hl & Hr).
  fold wd in Hacc, Hsc, Hl, Hr. unfold accounted in Hacc.
  rewrite (inFlight_quiescent wd Hq), Hsc, Z.add_0_r, Z.add_0_l in Hacc.
  rewrite (wrap_small _ Hr) in Hacc.
  split; [symmetry; exact Hacc|]. split; [exact Hsc|]. split; [exact Hl|].
  unfold printResults. rewrite Hl, Hsc, Hacc. reflexivity.
Qed.

Lemma all_500_report_witness :
  let wd := exec all500 (start 2) in
  allExited wd = true /\
  totalRequests (stats wd) = 3 /\
  errorCount (stats wd) = totalRequests (stats wd) /\
  printResults (stats wd) = Some (mkReport 3 0 3 0 0 0 0).
Proof.
  intros wd.
  assert (Forall (answeredWith 500) all500) as Hall
    by (repeat constructor; cbn; eauto).
  destruct (all_500_report 2 all500 Hall eq_refl) as (He & _ & _ & Hp).
  split; [reflexivity|]. split; [reflexivity|]. split; [exact He|exact Hp].
Defined.

End WorkerClaims.

(** ** The slow-connection simulator: what goes out on the wire *)

Section Lines.

Import Slowloris.

Lemma lineFree_app (a b : list ascii) :
  lineFree (a ++ b) = lineFree a && lineFree b.
Proof. apply forallb_app. Qed.

Lemma lineFree_uint (d : Decimal.uint) :
  lineFree (bytes (NilEmpty.string_of_uint d)) = true.
Proof. induction d; cbn; try reflexivity; exact IHd. Qed.

(** A formatted integer consists of digits and possibly a sign. *)
Lemma lineFree_formatInt (z : Z) : lineFree (formatInt z) = true.
Proof.
  unfold formatInt. destruct (Z.to_int z) as [d|d]; cbn.
  - destruct d; try reflexivity; apply (lineFree_uint (_ d)).
  - destruct d; try reflexivity; apply (lineFree_uint (_ d)).
Qed.

Lemma singleLine_intro (body : list ascii) :
  body <> [] -> lineFree body = true -> singleLine (body ++ CRLF).
Proof. intros Hne Hf. exists body. auto. Qed.

Lemma singleLine_requestLine (id : Z) : singleLine (requestLine id).
Proof.
  unfold requestLine. rewrite 2!app_assoc. apply singleLine_intro.
  - discriminate.
  - rewrite 2!lineFree_app, lineFree_formatInt. reflexivity.
Qed.

Lemma singleLine_hostLine (target : list ascii) :
  lineFree target = true -> singleLine (hostLine target).
Proof.
  intros Ht. unfold hostLine. rewrite app_assoc. apply singleLine_intro.
  - discriminate.
  - rewrite lineFree_app, Ht. reflexivity.
Qed.

Lemma singleLine_userAgentLine : singleLine userAgentLine.
Proof. unfold userAgentLine. apply singleLine_intro; [discriminate|reflexivity]. Qed.

Lemma singleLine_customHeader (n now : Z) : singleLine (customHeader n now).
Proof.
  unfold customHeader. rewrite 3!app_assoc. apply singleLine_intro.
  - discriminate.
  - rewrite 3!lineFree_app, 2!lineFree_formatInt. reflexivity.
Qed.

Lemma hasTerminator_cons (a : ascii) (l : list ascii) :
  hasTerminator (a :: l) = startsBlank (a :: l) || hasTerminator l.
Proof. destruct l as [|b [|c [|d l]]]; reflexivity. Qed.

Lemma startsBlank_head (a : ascii) (l : list ascii) :
  Ascii.eqb a CR = false -> startsBlank (a :: l) = false.
Proof.
  intros Ha. destruct l as [|b [|c [|d l]]]; try reflexivity.
  cbn. rewrite Ha. reflexivity.
Qed.

(** [hasTerminator] decides the occurrence of CR LF CR LF. *)
Lemma hasTerminator_complete (pre post : list ascii) :
  hasTerminator (pre ++ CRLF ++ CRLF ++ post) = true.
Proof.
  induction pre as [|a pre IH].
  - reflexivity.
  - cbn [app]. rewrite hasTerminator_cons. cbn [app] in IH. rewrite IH.
    apply orb_true_r.
Qed.

Lemma hasTerminator_sound (l : list ascii) :
  hasTerminator l = true ->
  exists pre post, l = pre ++ CRLF ++ CRLF ++ post.
Proof.
  induction l as [|a l IH]; [discriminate|].
  rewrite hasTerminator_cons. intros H. apply orb_true_iff in H as [H|H].
  - destruct l as [|b [|c [|d l]]]; try discriminate H.
    cbn in H. repeat (apply andb_true_iff in H as [H ?]).
    apply Ascii.eqb_eq in H, H0, H1, H2. subst.
    exists [], l. reflexivity.
  - destruct (IH H) as (pre & post & ->). exists (a :: pre), post. reflexivity.
Qed.

Lemma hasTerminator_take (n : nat) (l : list ascii) :
  hasTerminator l = false -> hasTerminator (take n l) = false.
Proof.
  intros Hl. destruct (hasTerminator (take n l)) eqn:Ht; [|reflexivity].
  apply hasTerminator_sound in Ht as (pre & post & Ht).
  rewrite <- (take_drop n l), Ht, <- !app_assoc, hasTerminator_complete in Hl.
  discriminate Hl.
Qed.

Lemma goodStart_body (body rest : list ascii) :
  body <> [] -> lineFree body = true -> goodStart (body ++ rest) = true.
Proof.
  destruct body as [|a body]; [congruence|]. intros _ H. cbn in *.
  apply andb_true_iff in H as [H _]. exact H.
Qed.

(** Putting a line in front of a stream free of blank lines gives a stream
    free of blank lines, provided the stream does not begin with a line
    break. *)
Lemma hasTerminator_line (body rest : list ascii) :
  body <> [] -> lineFree body = true ->
  goodStart rest = true -> hasTerminator rest = false ->
  hasTerminator (body ++ CRLF ++ rest) = false.
Proof.
  intros Hne Hf Hg Hr. clear Hne.
  induction body as [|a body IH].
  - cbn [app CRLF]. rewrite hasTerminator_cons.
    assert (startsBlank (CR :: LF :: rest) = false) as ->.
    { destruct rest as [|c [|d rest]]; try reflexivity.
      cbn in Hg. apply andb_true_iff in Hg as [Hc _].
      apply negb_true_iff in Hc. cbn. rewrite Hc. reflexivity. }
    rewrite hasTerminator_cons, startsBlank_head by reflexivity.
    exact Hr.
  - cbn in Hf. apply andb_true_iff in Hf as [Ha Hf].
    apply andb_true_iff in Ha as [Ha _]. apply negb_true_iff in Ha.
    cbn [app]. rewrite hasTerminator_cons, startsBlank_head by exact Ha.
    apply IH. exact Hf.
Qed.

Lemma lineFree_hasTerminator (body : list ascii) :
  lineFree body = true -> hasTerminator body = false.
Proof.
  induction body as [|a body IH]; [reflexivity|]. cbn [lineFree forallb].
  intros H. apply andb_true_iff in H as [Ha Hf].
  apply andb_true_iff in Ha as [Ha _]. apply negb_true_iff in Ha.
  rewrite hasTerminator_cons, startsBlank_head by exact Ha. apply IH, Hf.
Qed.

(** A beginning of a single line: free of blank lines and with a good
    start. *)
Lemma partial_line (line : list ascii) (n : nat) :
  singleLine line ->
  goodStart (take n line) = true /\ hasTerminator (take n line) = false.
Proof.
  intros (body & -> & Hne & Hf). split.
  - destruct body as [|a body]; [congruence|].
    destruct n; [reflexivity|]. cbn in *.
    apply andb_true_iff in Hf as [Hf _]. exact Hf.
  - apply hasTerminator_take.
    rewrite <- (app_nil_r CRLF).
    apply hasTerminator_line; auto.
Qed.

(** Whole lines followed by the beginning of a line never contain the
    blank line. *)
Lemma lines_no_terminator (lines : list (list ascii)) (partial : list ascii) :
  Forall singleLine lines ->
  goodStart partial = true -> hasTerminator partial = false ->
  goodStart (concat lines ++ partial) = true /\
  hasTerminator (concat lines ++ partial) = false.
Proof.
  intros Hl Hg Hp. induction Hl as [|line lines Hline _ IH]; [auto|].
  destruct IH as [IHg IHt]. destruct Hline as (body & -> & Hne & Hf).
  cbn [concat]. rewrite <- !app_assoc. split.
  - apply goodStart_body; assumption.
  - apply hasTerminator_line; assumption.
Qed.

End Lines.

Section Wires.

Import Slowloris.

Lemma intact_lineShaped (c : Wire) : intact c -> lineShaped c.
Proof.
  intros [Hs Hw]. split; [exact Hw|].
  exists (writes c), userAgentLine, 0%nat.
  rewrite Hs, take_0, app_nil_r.
  split; [reflexivity|]. split; [exact Hw|apply singleLine_userAgentLine].
Qed.

Lemma concat_snoc (ls : list (list ascii)) (l : list ascii) :
  concat (ls ++ [l]) = concat ls ++ l.
Proof. rewrite concat_app. cbn. rewrite app_nil_r. reflexivity. Qed.

(** Writing a single line on an intact connection: the connection stays
    intact if the write succeeds, and is line-shaped in any case. *)
Lemma connWrite_line (line : list ascii) (r : WriteResult) (c : Wire) :
  singleLine line -> intact c ->
  writes (fst (connWrite line r c)) = writes c ++ [line] /\
  lineShaped (fst (connWrite line r c)) /\
  (snd (connWrite line r c) = true -> intact (fst (connWrite line r c))).
Proof.
  intros Hl [Hs Hw].
  assert (Forall singleLine (writes c ++ [line])) as Hw'
    by (apply Forall_app; split; [exact Hw|constructor; [exact Hl|constructor]]).
  destruct r as [|n]; cbn [connWrite fst snd writes sent].
  - assert (intact (mkWire (sent c ++ line) (writes c ++ [line]))) as Hi.
    { split; cbn [sent writes]; [|exact Hw'].
      rewrite concat_snoc, Hs. reflexivity. }
    split; [reflexivity|]. split; [apply intact_lineShaped, Hi|].
    intros _. exact Hi.
  - split; [reflexivity|]. split; [|discriminate].
    split; [exact Hw'|]. exists (writes c), line, n. cbn [sent].
    rewrite Hs. auto.
Qed.

Lemma headerTick_wire (cfg : Config) (headerNum : Z) (t : Tick)
      (s : Stats) (c : Wire) :
  intact c ->
  lineShaped (snd (fst (headerTick cfg headerNum t s c))) /\
  (forall n, snd (headerTick cfg headerNum t s c) = Continue n ->
             intact (snd (fst (headerTick cfg headerNum t s c)))).
Proof.
  intros Hi. unfold headerTick.
  destruct (tCancelled t); [split; [apply intact_lineShaped, Hi|discriminate]|].
  destruct (tPeek t) as [e|];
    [|split; [apply intact_lineShaped, Hi|discriminate]].
  destruct (isTimeout e); cbn [negb];
    [|split; [apply intact_lineShaped, Hi|discriminate]].
  pose proof (connWrite_line
                (customHeader (Int64.add headerNum 1) (tNow t)) (tWrite t) c
                (singleLine_customHeader _ _) Hi) as (_ & Hshape & Hok).
  destruct (connWrite (customHeader (Int64.add headerNum 1) (tNow t))
                      (tWrite t) c) as [c' ok].
  cbn [fst snd] in *.
  destruct ok; cbn [negb].
  - destruct (negb (KeepOpen cfg) && (10 <=? Int64.add headerNum 1));
      cbn [fst snd]; split; auto; discriminate.
  - cbn [fst snd]. split; [exact Hshape|discriminate].
Qed.

Lemma headerLoop_wire (cfg : Config) (ts : list Tick) :
  forall (headerNum : Z) (s : Stats) (c : Wire),
    intact c -> lineShaped (snd (fst (headerLoop cfg headerNum ts s c))).
Proof.
  induction ts as [|t ts IH]; intros headerNum s c Hi; cbn [headerLoop].
  - apply intact_lineShaped, Hi.
  - pose proof (headerTick_wire cfg headerNum t s c Hi) as [Hshape Hcont].
    destruct (headerTick cfg headerNum t s c) as [[s' c'] [n|b]];
      cbn [fst snd] in *.
    + apply IH. apply (Hcont n). reflexivity.
    + exact Hshape.
Qed.

(** When the configured target has no line break in it, every connection
    [performSlowloris] has written to is line-shaped. *)
Lemma performSlowloris_wire (cfg : Config) (id : Z) (sc : ConnScript)
      (s : Stats) :
  lineFree (Target cfg) = true ->
  lineShaped (snd (fst (performSlowloris cfg id sc s freshConn))).
Proof.
  intros Ht. unfold performSlowloris.
  assert (intact freshConn) as H0 by (split; [reflexivity|constructor]).
  pose proof (connWrite_line (requestLine id) (wRequest sc) freshConn
                (singleLine_requestLine id) H0) as (_ & Hs1 & Hi1).
  destruct (connWrite (requestLine id) (wRequest sc) freshConn) as [c1 ok1].
  cbn [fst snd] in *. destruct ok1; cbn [negb]; [|exact Hs1].
  specialize (Hi1 eq_refl).
  destruct (cancelled1 sc); [exact Hs1|].
  pose proof (connWrite_line (hostLine (Target cfg)) (wHost sc) c1
                (singleLine_hostLine _ Ht) Hi1) as (_ & Hs2 & Hi2).
  destruct (connWrite (hostLine (Target cfg)) (wHost sc) c1) as [c2 ok2].
  cbn [fst snd] in *. destruct ok2; cbn [negb]; [|exact Hs2].
  specialize (Hi2 eq_refl).
  destruct (cancelled2 sc); [exact Hs2|].
  pose proof (connWrite_line userAgentLine (wUserAgent sc) c2
                singleLine_userAgentLine Hi2) as (_ & Hs3 & Hi3).
  destruct (connWrite userAgentLine (wUserAgent sc) c2) as [c3 ok3].
  cbn [fst snd] in *. destruct ok3; cbn [negb]; [|exact Hs3].
  apply headerLoop_wire. apply Hi3. reflexivity.
Qed.

Lemma lineShaped_no_terminator (c : Wire) :
  lineShaped c -> hasTerminator (sent c) = false.
Proof.
  intros (_ & lines & line & n & -> & Hlines & Hline).
  destruct (partial_line line n Hline) as [Hg Hp].
  apply (lines_no_terminator lines _ Hlines Hg Hp).
Qed.

End Wires.

Section WireClaims.

Import Slowloris.

(** C5, failing input.  The [Host] line is the configured target copied
    verbatim.  With the target [zoneTarget], which has a host and a port,
    the worker dials, [performSlowloris] runs, and its second write is not
    a single line: the bytes sent on the connection contain CR LF CR LF
    right after the zone's first byte. *)
Theorem zone_target_sends_terminator :
  let r := slowlorisWorker zoneFlags 0
             [mkAttempt false (Some openingOnly) false] zeroStats in
  exists c,
    snd (fst r) = [c] /\
    writes c = [requestLine 0; hostLine zoneTarget; userAgentLine] /\
    sent c = (requestLine 0 ++ bytes "Host: [::1%a") ++ CRLF ++ CRLF
             ++ (bytes "b]:8080" ++ CRLF ++ userAgentLine) /\
    hasTerminator (sent c) = true /\
    ~ singleLine (hostLine zoneTarget).
Proof.
  cbv zeta. eexists. split; [vm_compute; reflexivity|].
  split; [reflexivity|]. split; [reflexivity|]. split; [reflexivity|].
  intros (body & Heq & _ & Hf).
  assert (body = bytes "Host: " ++ zoneTarget) as ->.
  { apply (app_inv_tail CRLF). rewrite <- Heq. reflexivity. }
  discriminate Hf.
Qed.

(** X18.  For every configuration whose target contains neither CR nor
    LF, and for every behaviour of the peer, the network and the stop
    channel, every buffer [performSlowloris] writes is a single non-empty
    line ending in one CRLF, and CR LF CR LF does not occur in the bytes
    sent on the connection. *)
Theorem terminator_never_sent (cfg : Config) (id : Z) (sc : ConnScript)
        (s : Stats) :
  lineFree (Target cfg) = true ->
  let c := snd (fst (performSlowloris cfg id sc s freshConn)) in
  Forall singleLine (writes c) /\
  hasTerminator (sent c) = false /\
  forall pre post, sent c <> pre ++ CRLF ++ CRLF ++ post.
Proof.
  intros Ht c.
  pose proof (performSlowloris_wire cfg id sc s Ht) as Hshape. fold c in Hshape.
  pose proof (lineShaped_no_terminator c Hshape) as Hno.
  split; [exact (proj1 Hshape)|]. split; [exact Hno|].
  intros pre post Heq. rewrite Heq, hasTerminator_complete in Hno.
  discriminate Hno.
Qed.

Lemma terminator_never_sent_witness :
  let c := snd (fst (performSlowloris defaultFlags 7 cutOffScript zeroStats
                                      freshConn)) in
  length (writes c) = 6%nat /\ hasTerminator (sent c) = false.
Proof.
  intros c.
  destruct (terminator_never_sent defaultFlags 7 cutOffScript zeroStats
              eq_refl) as (_ & Hno & _).
  split; [reflexivity|exact Hno].
Defined.

End WireClaims.

(** ** The slow-connection simulator: counters and control *)

Section Counters.

Import Slowloris.

Lemma onlyHeaders_refl (s : Stats) : onlyHeaders s s.
Proof. repeat split. Qed.

Lemma onlyHeaders_add (s s' : Stats) (d : Z) :
  onlyHeaders s s' -> onlyHeaders s (addHeadersSent d s').
Proof. intros H. exact H. Qed.

Lemma onlyHeaders_trans (s1 s2 s3 : Stats) :
  onlyHeaders s1 s2 -> onlyHeaders s2 s3 -> onlyHeaders s1 s3.
Proof. unfold onlyHeaders. intuition congruence. Qed.

Lemma headerTick_frame (cfg : Config) (headerNum : Z) (t : Tick)
      (s : Stats) (c : Wire) :
  onlyHeaders s (fst (fst (headerTick cfg headerNum t s c))).
Proof.
  unfold headerTick.
  destruct (tCancelled t); [apply onlyHeaders_refl|].
  destruct (tPeek t) as [e|]; [|apply onlyHeaders_refl].
  destruct (isTimeout e); cbn [negb]; [|apply onlyHeaders_refl].
  destruct (connWrite _ (tWrite t) c) as [c' ok].
  destruct ok; cbn [negb]; [|apply onlyHeaders_refl].
  destruct (negb (KeepOpen cfg) && (10 <=? Int64.add headerNum 1));
    repeat split.
Qed.

Lemma headerLoop_frame (cfg : Config) (ts : list Tick) :
  forall (headerNum : Z) (s : Stats) (c : Wire),
    onlyHeaders s (fst (fst (headerLoop cfg headerNum ts s c))).
Proof.
  induction ts as [|t ts IH]; intros headerNum s c; cbn [headerLoop].
  - apply onlyHeaders_refl.
  - pose proof (headerTick_frame cfg headerNum t s c) as Ht.
    destruct (headerTick cfg headerNum t s c) as [[s' c'] [n|b]];
      cbn [fst snd] in *; [|exact Ht].
    eapply onlyHeaders_trans; [exact Ht|apply IH].
Qed.

(** [performSlowloris] touches no counter but [headersSent]. *)
Lemma performSlowloris_frame (cfg : Config) (id : Z) (sc : ConnScript)
      (s : Stats) (c : Wire) :
  onlyHeaders s (fst (fst (performSlowloris cfg id sc s c))).
Proof.
  unfold performSlowloris.
  destruct (connWrite (requestLine id) (wRequest sc) c) as [c1 ok1].
  destruct ok1; cbn [negb]; [|apply onlyHeaders_refl].
  destruct (cancelled1 sc); [repeat split|].
  destruct (connWrite (hostLine (Target cfg)) (wHost sc) c1) as [c2 ok2].
  destruct ok2; cbn [negb]; [|repeat split].
  destruct (cancelled2 sc); [repeat split|].
  destruct (connWrite userAgentLine (wUserAgent sc) c2) as [c3 ok3].
  destruct ok3; cbn [negb]; [|repeat split].
  eapply onlyHeaders_trans; [|apply headerLoop_frame]. repeat split.
Qed.

(** The counters after one pass of the worker loop in which the dial
    succeeded, in terms of what [performSlowloris] returned. *)
Lemma workerIteration_connected (cfg : Config) (id : Z) (a : Attempt)
      (sc : ConnScript) (s : Stats) :
  aCancelled a = false -> aDial a = Some sc ->
  let s' := fst (fst (workerIteration cfg id a s)) in
  let res := snd (performSlowloris cfg id sc
                    (addActiveConns 1 (addTotalConns 1 s)) freshConn) in
  totalConns s' = Int64.add (totalConns s) 1 /\
  errors s' = errors s /\
  activeConns s' =
    match res with
    | None => Int64.add (activeConns s) 1
    | Some _ => Int64.add (Int64.add (activeConns s) 1) (-1)
    end /\
  closedByServer s' =
    match res with
    | Some true => Int64.add (closedByServer s) 1
    | _ => closedByServer s
    end.
Proof.
  intros Hc Hd. unfold workerIteration. rewrite Hc, Hd.
  pose proof (performSlowloris_frame cfg id sc
                (addActiveConns 1 (addTotalConns 1 s)) freshConn)
    as (Ha & Ht & Hcl & He).
  destruct (performSlowloris cfg id sc (addActiveConns 1 (addTotalConns 1 s))
                             freshConn) as [[s2 c] [b|]];
    cbn [fst snd] in *.
  - unfold finishConnection. destruct b; cbn; rewrite ?Ha, ?Ht, ?Hcl, ?He;
      cbn; auto.
  - rewrite Ha, Ht, Hcl, He. cbn. auto.
Qed.

Lemma totalConns_iteration (cfg : Config) (id : Z) (a : Attempt) (s : Stats) :
  totalConns (fst (fst (workerIteration cfg id a s)))
  = if aCancelled a then totalConns s
    else match aDial a with
         | Some _ => Int64.add (totalConns s) 1
         | None => totalConns s
         end.
Proof.
  destruct (aCancelled a) eqn:Hc;
    [unfold workerIteration; rewrite Hc; reflexivity|].
  destruct (aDial a) as [sc|] eqn:Hd.
  - apply (workerIteration_connected cfg id a sc s Hc Hd).
  - unfold workerIteration. rewrite Hc, Hd. reflexivity.
Qed.

(** [totalConns] moves by the number of dials that succeeded. *)
Lemma totalConns_worker (cfg : Config) (id : Z) (attempts : list Attempt) :
  forall s : Stats,
    Int64.in_range (totalConns s) ->
    totalConns (fst (fst (slowlorisWorker cfg id attempts s)))
    = Int64.wrap (totalConns s + dialsSucceeded cfg id attempts s).
Proof.
  induction attempts as [|a rest IH]; intros s Hr;
    cbn [slowlorisWorker dialsSucceeded].
  - cbn [fst]. rewrite Z.add_0_r, wrap_small by exact Hr. reflexivity.
  - pose proof (totalConns_iteration cfg id a s) as Hit.
    destruct (workerIteration cfg id a s) as [[s' oc] nx]. cbn [fst snd] in Hit.
    assert (Int64.in_range (totalConns s')) as Hr'.
    { rewrite Hit. destruct (aCancelled a); [exact Hr|].
      destruct (aDial a); [apply wrap_in_range|exact Hr]. }
    destruct nx.
    + specialize (IH s' Hr').
      destruct (slowlorisWorker cfg id rest s') as [[s'' cs] nx'].
      cbn [fst snd] in *. rewrite IH, Hit.
      destruct (aCancelled a); [f_equal; lia|].
      destruct (aDial a); [unwrap; lia|f_equal; lia].
    + cbn [fst snd]. rewrite Hit.
      destruct (aCancelled a);
        [rewrite Z.add_0_r, wrap_small by exact Hr; reflexivity|].
      destruct (aDial a); [reflexivity|].
      rewrite Z.add_0_r, wrap_small by exact Hr. reflexivity.
    + cbn [fst snd]. rewrite Hit.
      destruct (aCancelled a);
        [rewrite Z.add_0_r, wrap_small by exact Hr; reflexivity|].
      destruct (aDial a); [reflexivity|].
      rewrite Z.add_0_r, wrap_small by exact Hr. reflexivity.
Qed.

End Counters.

Section LoopClaims.

Import Slowloris.

(** C4, counterexample.  With keep-open disabled and nine custom headers
    already sent, a peek that times out is followed by one more header and
    the worker then leaves the loop (returning false) instead of remaining
    in it. *)
Lemma tenth_header_leaves_loop :
  let t := timeoutTick 1700000000000000000 in
  let r := headerTick weakFlags 9 t zeroStats freshConn in
  tCancelled t = false /\ tPeek t = Some (NetError true) /\
  writes (snd (fst r)) = [customHeader 10 1700000000000000000] /\
  snd r = Return false /\
  (forall n, snd r <> Continue n).
Proof. cbv zeta. repeat split; try reflexivity. intros n H. discriminate H. Qed.

(** C4, as amended.  At a tick of the header loop that is not cancelled:
    if the peek succeeds the worker returns false, having written nothing;
    if the peek fails with a timeout it writes exactly one more header, a
    single line, and then, the write having succeeded, counts it and stays
    in the loop unless keep-open is off and this was at least the tenth
    custom header, in which case it returns false; if the write fails, or
    if the peek fails with any other error, it returns true.  A pass of the
    worker loop whose [performSlowloris] returned true adds exactly 1 to
    [closedByServer]; one that returned false adds nothing; in both cases
    the increment of [activeConns] made after the dial is undone. *)
Theorem header_tick_cases (cfg : Config) (headerNum : Z) (t : Tick)
        (ts : list Tick) (s : Stats) (c : Wire) :
  tCancelled t = false ->
  let r := headerTick cfg headerNum t s c in
  let s' := fst (fst r) in
  let c' := snd (fst r) in
  let line := customHeader (Int64.add headerNum 1) (tNow t) in
  match tPeek t with
  | None => s' = s /\ c' = c /\ snd r = Return false
  | Some e =>
      if isTimeout e then
        writes c' = writes c ++ [line] /\ singleLine line /\
        match tWrite t with
        | WriteOk =>
            sent c' = sent c ++ line /\ s' = addHeadersSent 1 s /\
            snd r = if negb (KeepOpen cfg) && (10 <=? Int64.add headerNum 1)
                    then Return false
                    else Continue (Int64.add headerNum 1)
        | WriteFailed _ => s' = s /\ snd r = Return true
        end
      else s' = s /\ c' = c /\ snd r = Return true
  end /\
  headerLoop cfg headerNum (t :: ts) s c =
    match snd r with
    | Return b => (s', c', Some b)
    | Continue n => headerLoop cfg n ts s' c'
    end /\
  forall (id : Z) (a : Attempt) (sc : ConnScript) (s0 : Stats),
    aCancelled a = false -> aDial a = Some sc ->
    let s1 := fst (fst (workerIteration cfg id a s0)) in
    match snd (performSlowloris cfg id sc
                 (addActiveConns 1 (addTotalConns 1 s0)) freshConn) with
    | Some true =>
        closedByServer s1 = Int64.add (closedByServer s0) 1 /\
        activeConns s1 = Int64.add (Int64.add (activeConns s0) 1) (-1)
    | Some false =>
        closedByServer s1 = closedByServer s0 /\
        activeConns s1 = Int64.add (Int64.add (activeConns s0) 1) (-1)
    | None => closedByServer s1 = closedByServer s0
    end.
Proof.
  intros Hc r s' c' line. subst r s' c' line. split; [|split].
  - unfold headerTick. rewrite Hc.
    destruct (tPeek t) as [e|]; [|auto].
    destruct (isTimeout e); cbn [negb]; [|auto].
    split; [|split; [apply singleLine_customHeader|]].
    + destruct (tWrite t); cbn [connWrite negb];
        [destruct (negb (KeepOpen cfg) && (10 <=? Int64.add headerNum 1))|];
        reflexivity.
    + destruct (tWrite t); cbn [connWrite negb];
        [destruct (negb (KeepOpen cfg) && (10 <=? Int64.add headerNum 1))|];
        auto.
  - cbn [headerLoop].
    destruct (headerTick cfg headerNum t s c) as [[s' c'] [n|b]]; reflexivity.
  - intros id a sc s0 Ha Hd s1.
    pose proof (workerIteration_connected cfg id a sc s0 Ha Hd)
      as (_ & _ & Hact & Hcl).
    fold s1 in Hact, Hcl.
    destruct (snd (performSlowloris cfg id sc
                     (addActiveConns 1 (addTotalConns 1 s0)) freshConn))
      as [[|]|]; auto.
Qed.

Lemma header_tick_cases_witness :
  let a := mkAttempt false (Some resetAtThird) true in
  let s1 := fst (fst (workerIteration defaultFlags 3 a zeroStats)) in
  snd (headerTick defaultFlags 2 (mkTick false (Some OtherError) 13 WriteOk)
                  zeroStats freshConn) = Return true /\
  closedByServer s1 = 1 /\ activeConns s1 = 0 /\ headersSent s1 = 5.
Proof.
  intros a s1.
  destruct (header_tick_cases defaultFlags 2
              (mkTick false (Some OtherError) 13 WriteOk) [] zeroStats
              freshConn eq_refl) as ((_ & _ & Hret) & _ & Hw).
  destruct (Hw 3 a resetAtThird zeroStats eq_refl eq_refl) as [Hcl Hact].
  split; [exact Hret|]. split; [exact Hcl|]. split; [exact Hact|reflexivity].
Defined.

Lemma length_customHeaders (from : Z) (ts : list Tick) :
  length (customHeaders from ts) = length ts.
Proof.
  revert from. induction ts as [|t ts IH]; intros from; cbn; [reflexivity|].
  rewrite IH. reflexivity.
Qed.

(** With keep-open off and a silent peer, the loop started at [headerNum]
    runs until the tenth custom header and returns false. *)
Lemma headerLoop_weak (cfg : Config) (k : nat) :
  KeepOpen cfg = false ->
  forall (headerNum : Z) (ts : list Tick) (s : Stats) (c : Wire),
    0 <= headerNum -> headerNum + Z.of_nat (S k) = 10 ->
    Forall silentTick ts -> (k < length ts)%nat ->
    let r := headerLoop cfg headerNum ts s c in
    snd r = Some false /\
    fst (fst r) = addHeadersSent (Z.of_nat (S k)) s /\
    writes (snd (fst r))
      = writes c ++ customHeaders (headerNum + 1) (take (S k) ts).
Proof.
  intros Hk. induction k as [|k IH]; intros n ts s c Hn Hsum Hts Hlen.
  - destruct ts as [|t ts]; [cbn in Hlen; lia|].
    apply Forall_cons in Hts as [(Hc & Hp & Hw) _].
    assert (n = 9) as -> by lia.
    cbn [headerLoop]. unfold headerTick. rewrite Hc, Hp, Hw, Hk.
    cbn [isTimeout negb connWrite andb].
    change (Int64.add 9 1) with 10. change (10 <=? 10) with true.
    cbn [fst snd writes take customHeaders]. auto.
  - destruct ts as [|t ts]; [cbn in Hlen; lia|].
    apply Forall_cons in Hts as [(Hc & Hp & Hw) Hts].
    cbn [headerLoop]. unfold headerTick. rewrite Hc, Hp, Hw, Hk.
    cbn [isTimeout negb connWrite andb].
    assert (Int64.add n 1 = n + 1) as -> by (unwrap; lia).
    destruct (Z.leb_spec 10 (n + 1)) as [Hge|_]; [lia|].
    cbn [length] in Hlen.
    destruct (IH (n + 1) ts (addHeadersSent 1 s)
                 (mkWire (sent c ++ customHeader (n + 1) (tNow t))
                         (writes c ++ [customHeader (n + 1) (tNow t)]))
                 ltac:(lia) ltac:(lia) Hts ltac:(lia)) as (Hr & Hs & Hwr).
    split; [exact Hr|]. split.
    + rewrite Hs. unfold addHeadersSent; cbn. f_equal.
      rewrite add_assoc_const. f_equal. lia.
    + rewrite Hwr. cbn [writes]. rewrite <- app_assoc. reflexivity.
Qed.

(** C9.  With the keep-open option off, a worker whose peeks always time
    out (no cancellation, every write succeeding) leaves the header loop on
    its own after ten custom header lines: [performSlowloris] returns
    false, thirteen lines have been written and counted (request line,
    Host, User-Agent and the custom headers 1 to 10), ticks beyond the
    tenth play no part, and [closedByServer] is not incremented. *)
Theorem weak_attacker_gives_up (cfg : Config) (id : Z) (sc : ConnScript)
        (s : Stats) :
  KeepOpen cfg = false -> silentPeer sc -> (10 <= length (ticks sc))%nat ->
  let r := performSlowloris cfg id sc s freshConn in
  snd r = Some false /\
  headersSent (fst (fst r)) = Int64.add (headersSent s) 13 /\
  writes (snd (fst r))
    = [requestLine id; hostLine (Target cfg); userAgentLine]
      ++ customHeaders 1 (take 10 (ticks sc)) /\
  length (writes (snd (fst r))) = 13%nat /\
  closedByServer (finishConnection (false) (fst (fst r))) = closedByServer s.
Proof.
  intros Hk (H1 & H2 & H3 & H4 & H5 & Hts) Hlen r. subst r.
  unfold performSlowloris. rewrite H1, H2, H3, H4, H5.
  cbn [connWrite negb].
  match goal with
  | |- context [headerLoop cfg 0 (ticks sc) ?s0 ?c0] =>
      destruct (headerLoop_weak cfg 9 Hk 0 (ticks sc) s0 c0
                  ltac:(lia) ltac:(reflexivity) Hts ltac:(lia))
        as (Hr & Hs & Hw)
  end.
  split; [exact Hr|]. split; [|split; [|split]].
  - rewrite Hs. cbn. rewrite !add_assoc_const. reflexivity.
  - rewrite Hw. reflexivity.
  - rewrite Hw. cbn [writes freshConn app length].
    rewrite length_customHeaders, length_take. lia.
  - rewrite Hs. reflexivity.
Qed.

Lemma weak_attacker_gives_up_witness :
  let r := performSlowloris weakFlags 0 silentScript zeroStats freshConn in
  snd r = Some false /\ headersSent (fst (fst r)) = 13 /\
  length (writes (snd (fst r))) = 13%nat.
Proof.
  intros r.
  assert (silentPeer silentScript) as Hsilent
    by (repeat split; repeat constructor).
  destruct (weak_attacker_gives_up weakFlags 0 silentScript zeroStats
              eq_refl Hsilent ltac:(cbn; lia)) as (Hr & Hh & _ & Hl & _).
  split; [exact Hr|]. split; [exact Hh|exact Hl].
Defined.

(** C10.  A pass of the worker loop whose dial fails adds 1 to [errors]
    and changes no other counter, opens no connection and goes round
    again; a pass whose dial succeeds adds 1 to [totalConns] and leaves
    [errors] alone; over any run of the worker, [totalConns] moves by the
    number of dials that succeeded. *)
Theorem failed_dial_changes_only_errors (cfg : Config) (id : Z)
        (a : Attempt) (attempts : list Attempt) (s : Stats) :
  Int64.in_range (totalConns s) ->
  (aCancelled a = false -> aDial a = None ->
   workerIteration cfg id a s = (addErrors 1 s, None, Again) /\
   let s' := fst (fst (workerIteration cfg id a s)) in
   errors s' = Int64.add (errors s) 1 /\
   totalConns s' = totalConns s /\ activeConns s' = activeConns s /\
   closedByServer s' = closedByServer s /\ headersSent s' = headersSent s) /\
  (forall sc, aCancelled a = false -> aDial a = Some sc ->
   let s' := fst (fst (workerIteration cfg id a s)) in
   totalConns s' = Int64.add (totalConns s) 1 /\ errors s' = errors s) /\
  totalConns (fst (fst (slowlorisWorker cfg id attempts s)))
  = Int64.wrap (totalConns s + dialsSucceeded cfg id attempts s).
Proof.
  intros Hr. split; [|split].
  - intros Hc Hd. unfold workerIteration. rewrite Hc, Hd.
    repeat split.
  - intros sc Hc Hd s'.
    pose proof (workerIteration_connected cfg id a sc s Hc Hd)
      as (Ht & He & _). auto.
  - apply totalConns_worker, Hr.
Qed.

Lemma failed_dial_changes_only_errors_witness :
  let s' := fst (fst (slowlorisWorker defaultFlags 0 refusedTwice zeroStats)) in
  workerIteration defaultFlags 0 (mkAttempt false None false) zeroStats
    = (mkStats 0 0 0 1 0, None, Again) /\
  totalConns s' = 1 /\ errors s' = 3.
Proof.
  intros s'.
  assert (Int64.in_range (totalConns zeroStats)) as Hr
    by (split; discriminate).
  destruct (failed_dial_changes_only_errors defaultFlags 0
              (mkAttempt false None false) refusedTwice zeroStats Hr)
    as (Hfail & _ & Htot).
  destruct (Hfail eq_refl eq_refl) as [Hit _].
  split; [exact Hit|]. split; [exact Htot|reflexivity].
Defined.

End LoopClaims.

(** * Further properties *)

(** ** The tracker: mapping, counters and log line *)

Section TrackerCounting.

Import Metrics.

Lemma lookup_filter_state (s : ConnState) (m : gmap nat ConnState) (k : nat) :
  filter (fun kv : nat * ConnState => snd kv = s) m !! k =
  match m !! k with
  | Some p => if decide (p = s) then Some p else None
  | None => None
  end.
Proof.
  destruct (m !! k) as [p|] eqn:Hk.
  - destruct (decide (p = s)) as [Hp|Hp].
    + apply map_lookup_filter_Some. auto.
    + apply map_lookup_filter_None. right. intros x Hx. cbn. congruence.
  - apply map_lookup_filter_None. left. exact Hk.
Qed.

Lemma entriesIn_delete (s : ConnState) (m : gmap nat ConnState) (k : nat) :
  entriesIn s (delete k m) = entriesIn s m - holds s (m !! k).
Proof.
  unfold entriesIn. rewrite map_filter_delete, map_size_delete.
  rewrite lookup_filter_state. unfold holds.
  destruct (m !! k) as [p|] eqn:Hk; [|cbn; lia].
  destruct (decide (p = s)) as [Hp|Hp]; [|cbn; lia].
  assert (size (filter (fun kv : nat * ConnState => kv.2 = s) m) <> 0%nat).
  { intros H0. apply map_size_empty_iff in H0.
    assert (filter (fun kv : nat * ConnState => kv.2 = s) m !! k = Some p)
      as Hf by (apply map_lookup_filter_Some; auto).
    rewrite H0, lookup_empty in Hf. discriminate. }
  cbn. lia.
Qed.

Lemma entriesIn_insert (s s' : ConnState) (m : gmap nat ConnState) (k : nat) :
  entriesIn s (<[k := s']> m) =
  entriesIn s m - holds s (m !! k) + (if decide (s' = s) then 1 else 0).
Proof.
  destruct (decide (s' = s)) as [Hs|Hs].
  - rewrite <- insert_delete_eq.
    unfold entriesIn at 1.
    rewrite map_filter_insert_True by exact Hs.
    rewrite map_size_insert_None
      by (rewrite lookup_filter_state, lookup_delete_eq; reflexivity).
    rewrite Nat2Z.inj_succ.
    change (Z.of_nat (size (filter (fun kv : nat * ConnState => kv.2 = s)
                                   (delete k m))))
      with (entriesIn s (delete k m)).
    rewrite entriesIn_delete. lia.
  - unfold entriesIn at 1.
    rewrite map_filter_insert_False by exact Hs.
    fold (entriesIn s (delete k m)). rewrite entriesIn_delete. lia.
Qed.

Lemma entriesIn_empty (s : ConnState) : entriesIn s ∅ = 0.
Proof. unfold entriesIn. rewrite map_filter_empty, map_size_empty. reflexivity. Qed.

Lemma entriesIn_bounds (s : ConnState) (m : gmap nat ConnState) :
  0 <= entriesIn s m <= Z.of_nat (size m).
Proof.
  unfold entriesIn. split; [lia|]. apply inj_le.
  apply map_subseteq_size, map_filter_subseteq.
Qed.

(** A state no entry has is counted zero times. *)
Lemma entriesIn_absent (s : ConnState) (m : gmap nat ConnState) :
  (forall k, m !! k <> Some s) -> entriesIn s m = 0.
Proof.
  induction m as [|i x m Hi IH] using map_ind; intros Hno.
  - apply entriesIn_empty.
  - rewrite entriesIn_insert, Hi. cbn [holds].
    assert (x <> s) as Hx
      by (intros ->; apply (Hno i); apply lookup_insert_eq).
    destruct (decide (x = s)); [contradiction|].
    rewrite IH; [lia|]. intros k Hk. apply (Hno k).
    destruct (decide (i = k)) as [->|Hne]; [congruence|].
    rewrite lookup_insert_ne by exact Hne. exact Hk.
Qed.

(** A mapping without [StateClosed] entries is partitioned by the four
    live states. *)
Lemma size_by_state (m : gmap nat ConnState) :
  (forall k, m !! k <> Some StateClosed) ->
  Z.of_nat (size m) =
  entriesIn StateNew m + entriesIn StateActive m + entriesIn StateIdle m
  + entriesIn StateHijacked m.
Proof.
  induction m as [|i x m Hi IH] using map_ind; intros Hno.
  - rewrite !entriesIn_empty, map_size_empty. reflexivity.
  - rewrite map_size_insert_None by exact Hi.
    rewrite !entriesIn_insert, Hi. cbn [holds].
    assert (x <> StateClosed) as Hx
      by (intros ->; apply (Hno i); apply lookup_insert_eq).
    assert (forall k, m !! k <> Some StateClosed) as Hno'.
    { intros k Hk. apply (Hno k).
      destruct (decide (i = k)) as [->|Hne]; [congruence|].
      rewrite lookup_insert_ne by exact Hne. exact Hk. }
    specialize (IH Hno').
    destruct x; try contradiction; repeat case_decide; try congruence; lia.
Qed.

Lemma mirrored_step (c : ConnStateCounter) (k : Conn) (st : ConnState) :
  mirrored c -> mirrored (TrackConnState c k st).
Proof.
  intros [Hno Hm]. split; [apply no_closed_entry_step; exact Hno|].
  intros s Hs. rewrite connStates_TrackConnState.
  pose proof (Hm StateNew ltac:(discriminate)) as HN.
  pose proof (Hm StateActive ltac:(discriminate)) as HA.
  pose proof (Hm StateIdle ltac:(discriminate)) as HI.
  pose proof (Hm StateHijacked ltac:(discriminate)) as HH.
  specialize (Hno k).
  assert (entriesIn s (match st with
                       | StateClosed => delete k (connStates c)
                       | _ => <[k:=st]> (connStates c)
                       end)
          = entriesIn s (connStates c) - holds s (connStates c !! k)
            + (if decide (st = s) then 1 else 0)) as ->.
  { destruct st; rewrite ?entriesIn_insert, ?entriesIn_delete;
      try reflexivity.
    case_decide; [congruence|]. rewrite Z.add_0_r. reflexivity. }
  unfold TrackConnState. clear Hm.
  destruct c as [n a i h acc cl m].
  cbn [connStates liveCounter stateNew stateActive stateIdle stateHijacked]
    in *.
  destruct (m !! k) as [p|] eqn:Hk; cbn [holds].
  - destruct p; try (exfalso; apply Hno; reflexivity);
      destruct st, s; try congruence; cbn;
      repeat case_decide; try congruence; subst; unwrap; lia.
  - destruct st, s; try congruence; cbn;
      repeat case_decide; try congruence; subst; unwrap; lia.
Qed.

Lemma mirrored_run (calls : list Call) :
  mirrored (run calls NewConnStateCounter).
Proof.
  induction calls as [|x calls IH] using rev_ind.
  - split.
    + intros k. cbn. rewrite lookup_empty. discriminate.
    + intros s Hs. cbn [run fold_left NewConnStateCounter connStates].
      rewrite entriesIn_empty. destruct s; reflexivity.
  - rewrite run_snoc. apply mirrored_step, IH.
Qed.

Lemma size_run (calls : list Call) :
  (size (connStates (run calls NewConnStateCounter)) <= length calls)%nat.
Proof.
  induction calls as [|x calls IH] using rev_ind.
  - cbn. rewrite map_size_empty. lia.
  - rewrite run_snoc, length_app. unfold track.
    rewrite connStates_TrackConnState. cbn [length].
    set (m := connStates (run calls NewConnStateCounter)) in *. clearbody m.
    destruct x as [k st]; cbn [fst snd].
    destruct st; rewrite ?map_size_insert, ?map_size_delete;
      case_match; unfold id; lia.
Qed.

End TrackerCounting.

Section TrackerExtras.

Import Metrics.

(** X1.  After any history of calls, with any integers as states, the
    mapping holds for each identity the most recent of its reports that
    carried one of the five constants, unless that report was
    [StateClosed], in which case (as for an identity with no such report)
    it holds nothing.  A call with any other value leaves the mapping as it
    was: the entry of a tracked identity is then no longer its most recent
    report. *)
Theorem live_mapping_follows_history (calls : list ValueCall) (conn : Conn)
        (s : ConnState) :
  (connStates (runValues calls NewConnStateCounter) !! conn = Some s <->
   lastState conn (named calls) = Some s /\ s <> StateClosed) /\
  (forall v, namedState v = None ->
             connStates (runValues (calls ++ [(conn, v)]) NewConnStateCounter)
             = connStates (runValues calls NewConnStateCounter)).
Proof.
  split.
  - rewrite connStates_runValues, connStates_run.
    destruct (lastState conn (named calls)) as [[]|]; split;
      try (intros [H1 H2]); try intros H; try congruence;
      try (injection H as <-; split; [reflexivity|discriminate]);
      try (injection H1 as <-; congruence).
  - intros v Hv. rewrite runValues_snoc. unfold trackValue. cbn [fst snd].
    rewrite connStates_TrackConnStateValue, Hv. reflexivity.
Qed.

(** Connection 5 was last reported with the value 9; the mapping still
    shows it active. *)
Lemma live_mapping_follows_history_witness :
  connStates (runValues strayHistory NewConnStateCounter) !! 5%nat
  = Some StateActive.
Proof.
  apply (live_mapping_follows_history strayHistory 5%nat StateActive).
  split; [reflexivity|discriminate].
Defined.

(** X2.  After any history of calls, with any integers as states, no entry
    of the mapping is [StateClosed].  When every call carried one of the
    five constants (in whatever order), each of the four live counters
    equals the number of identities the mapping holds in that state, and
    the four counters add up to the size of the mapping (modulo 2^64
    always; exactly for histories shorter than 2^61 calls).  A further call
    with any other value for a tracked identity takes one off the counter
    of the state recorded for it and changes neither the mapping nor the
    other counters, so that counter no longer matches. *)
Theorem counters_mirror_mapping (calls : list ValueCall) :
  let c := runValues calls NewConnStateCounter in
  (forall k, connStates c !! k <> Some StateClosed) /\
  (allNamed calls = true ->
   (forall s, s <> StateClosed ->
              liveCounter s c = Int64.wrap (entriesIn s (connStates c))) /\
   (Z.of_nat (length calls) < 2 ^ 61 ->
    (forall s, liveCounter s c = entriesIn s (connStates c)) /\
    stateNew c + stateActive c + stateIdle c + stateHijacked c
      = Z.of_nat (size (connStates c)))) /\
  (forall conn v p,
      namedState v = None -> connStates c !! conn = Some p ->
      let c' := TrackConnStateValue c conn v in
      connStates c' = connStates c /\
      liveCounter p c' = Int64.add (liveCounter p c) (-1) /\
      (forall s, s <> p -> liveCounter s c' = liveCounter s c) /\
      (allNamed calls = true -> Z.of_nat (length calls) < 2 ^ 61 ->
       liveCounter p c' = entriesIn p (connStates c') - 1)).
Proof.
  intros c.
  assert (forall k, connStates c !! k <> Some StateClosed) as Hno.
  { intros k. subst c. rewrite connStates_runValues.
    apply (proj1 (mirrored_run (named calls))). }
  assert (allNamed calls = true ->
          forall s, s <> StateClosed ->
                    liveCounter s c = Int64.wrap (entriesIn s (connStates c)))
    as Hm.
  { intros Hall. subst c. rewrite (runValues_allNamed _ _ Hall).
    apply (proj2 (mirrored_run (named calls))). }
  assert (allNamed calls = true -> Z.of_nat (length calls) < 2 ^ 61 ->
          forall s, liveCounter s c = entriesIn s (connStates c)) as Hex.
  { intros Hall Hlen s.
    change (2 ^ 61) with 2305843009213693952 in Hlen.
    destruct (decide (s = StateClosed)) as [->|Hs].
    - rewrite (entriesIn_absent _ _ Hno). reflexivity.
    - rewrite (Hm Hall s Hs). apply wrap_small.
      pose proof (entriesIn_bounds s (connStates c)) as Hb.
      pose proof (size_run (named calls)) as Hsize.
      pose proof (length_named calls) as Hn.
      subst c. rewrite connStates_runValues in Hb.
      rewrite connStates_runValues.
      unfold Int64.in_range, Int64.min_int, Int64.max_int.
      change (2 ^ 63) with 9223372036854775808. lia. }
  split; [exact Hno|]. split.
  - intros Hall. split; [exact (Hm Hall)|]. intros Hlen.
    split; [exact (Hex Hall Hlen)|].
    rewrite (size_by_state _ Hno).
    rewrite <- (Hex Hall Hlen StateNew), <- (Hex Hall Hlen StateActive),
      <- (Hex Hall Hlen StateIdle), <- (Hex Hall Hlen StateHijacked).
    reflexivity.
  - intros conn v p Hv Hp c'.
    assert (c' = decrementState c p) as ->.
    { subst c'. unfold TrackConnStateValue. rewrite Hv, Hp. reflexivity. }
    assert (p <> StateClosed) as Hpc.
    { intros ->. exact (Hno conn Hp). }
    split; [apply connStates_decrementState|].
    split; [destruct p; try reflexivity; congruence|].
    split; [intros s Hs; destruct p, s; try reflexivity; congruence|].
    intros Hall Hlen. rewrite connStates_decrementState.
    rewrite <- (Hex Hall Hlen p).
    assert (liveCounter p (decrementState c p)
            = Int64.add (liveCounter p c) (-1)) as ->
      by (destruct p; try reflexivity; congruence).
    rewrite (Hex Hall Hlen p).
    pose proof (entriesIn_bounds p (connStates c)) as Hb.
    pose proof (size_run (named calls)) as Hsize.
    pose proof (length_named calls) as Hn.
    subst c. rewrite connStates_runValues in *.
    change (2 ^ 61) with 2305843009213693952 in Hlen.
    unwrap. lia.
Qed.

(** After connection 5 was reported new and active and connection 6 new,
    a call for connection 5 with the value 9 leaves the active counter one
    below the number of active entries. *)
Lemma counters_mirror_mapping_witness :
  liveCounter StateActive
    (TrackConnStateValue
       (runValues (take 3 strayHistory) NewConnStateCounter) 5%nat 9)
  = entriesIn StateActive
      (connStates
         (TrackConnStateValue
            (runValues (take 3 strayHistory) NewConnStateCounter) 5%nat 9))
    - 1.
Proof.
  destruct (counters_mirror_mapping (take 3 strayHistory))
    as (_ & _ & Hstray).
  destruct (Hstray 5%nat 9 StateActive eq_refl eq_refl) as (_ & _ & _ & H).
  apply H; reflexivity.
Defined.

(** X3.  After any history of calls, [totalAccepted] is the number of
    [StateNew] reports and [totalClosed] the number of [StateClosed]
    reports in it, whatever identities they were for (modulo 2^64; exactly
    for histories shorter than 2^63 calls). *)
Theorem totals_count_reports (calls : list Call) :
  let c := run calls NewConnStateCounter in
  totalAccepted c = Int64.wrap (reports StateNew calls) /\
  totalClosed c = Int64.wrap (reports StateClosed calls) /\
  (Z.of_nat (length calls) < 2 ^ 63 ->
   totalAccepted c = reports StateNew calls /\
   totalClosed c = reports StateClosed calls).
Proof.
  intros c. destruct (totals_run calls) as [Ha Hc]. fold c in Ha, Hc.
  split; [exact Ha|]. split; [exact Hc|]. intros Hlen.
  change (2 ^ 63) with 9223372036854775808 in Hlen.
  pose proof (reports_bounds StateNew calls).
  pose proof (reports_bounds StateClosed calls).
  rewrite Ha, Hc. split; apply wrap_small;
    unfold Int64.in_range, Int64.min_int, Int64.max_int;
    change (2 ^ 63) with 9223372036854775808; lia.
Qed.

Lemma totals_count_reports_witness :
  totalAccepted (run unrulyHistory NewConnStateCounter) = 2 /\
  totalClosed (run unrulyHistory NewConnStateCounter) = 1.
Proof.
  destruct (totals_count_reports unrulyHistory) as (_ & _ & Hex).
  assert (Z.of_nat (length unrulyHistory) < 2 ^ 63) as Hl by reflexivity.
  destruct (Hex Hl) as [Ha Hc].
  rewrite Ha, Hc. split; vm_compute; reflexivity.
Defined.

(** X4.  When the history follows the net/http lifecycle (and is shorter
    than 2^61 calls) the mapping holds exactly
    [totalAccepted - totalClosed] identities: every connection that was
    closed has been removed, so the map does not grow with the number of
    connections served. *)
Theorem mapping_size_under_lifecycle (calls : list Call) :
  lifecycle calls = true ->
  Z.of_nat (length calls) < 2 ^ 61 ->
  let c := run calls NewConnStateCounter in
  Z.of_nat (size (connStates c)) = totalAccepted c - totalClosed c /\
  Z.of_nat (size (connStates c))
    = reports StateNew calls - reports StateClosed calls.
Proof.
  intros Hl Hlen c.
  destruct (mirrored_run calls) as [Hno Hm]. fold c in Hno, Hm.
  pose proof (consistent_run calls Hl) as [Hb _].
  assert (2 ^ 61 < 2 ^ 62) as H62 by reflexivity.
  assert (2 ^ 61 < 2 ^ 63) as H63 by reflexivity.
  pose proof (within_run calls ltac:(lia)) as Hw.
  pose proof (balancedZ_of_balanced _ _ Hlen Hw Hb) as Hz.
  fold c in Hz. unfold balancedZ in Hz. cbn [GetSnapshot New Active Idle
    Hijacked TotalAccepted TotalClosed] in Hz.
  destruct (totals_run calls) as [Ha Hc]. fold c in Ha, Hc.
  pose proof (reports_bounds StateNew calls) as HbN.
  pose proof (reports_bounds StateClosed calls) as HbC.
  change (2 ^ 61) with 2305843009213693952 in Hlen.
  assert (totalAccepted c = reports StateNew calls) as Ha'.
  { rewrite Ha. apply wrap_small.
    unfold Int64.in_range, Int64.min_int, Int64.max_int.
    change (2 ^ 63) with 9223372036854775808. lia. }
  assert (totalClosed c = reports StateClosed calls) as Hc'.
  { rewrite Hc. apply wrap_small.
    unfold Int64.in_range, Int64.min_int, Int64.max_int.
    change (2 ^ 63) with 9223372036854775808. lia. }
  assert (Z.of_nat (size (connStates c)) = totalAccepted c - totalClosed c)
    as Hsize.
  { rewrite <- Hz, (size_by_state _ Hno).
    pose proof (size_run calls) as Hs. fold c in Hs.
    assert (forall s, s <> StateClosed ->
                      liveCounter s c = entriesIn s (connStates c)) as Hex.
    { intros s Hs'. rewrite (Hm s Hs'). apply wrap_small.
      pose proof (entriesIn_bounds s (connStates c)).
      unfold Int64.in_range, Int64.min_int, Int64.max_int.
      change (2 ^ 63) with 9223372036854775808. lia. }
    rewrite <- (Hex StateNew), <- (Hex StateActive), <- (Hex StateIdle),
      <- (Hex StateHijacked) by discriminate. reflexivity. }
  split; [exact Hsize|]. rewrite Hsize, Ha', Hc'. reflexivity.
Qed.

Lemma mapping_size_under_lifecycle_witness :
  size (connStates (run threeConnections NewConnStateCounter)) = 1%nat.
Proof.
  destruct (mapping_size_under_lifecycle threeConnections eq_refl eq_refl)
    as [_ Hs].
  apply Nat2Z.inj. rewrite Hs. vm_compute. reflexivity.
Defined.

(** X5.  [stateName] gives the five constants five different names and
    every other value the name "unknown".  The debug line of a call shows
    as [new_state] the name of the value passed, and as [prev_state] the
    name of the state the mapping holds for the identity (its most recent
    report among those that carried one of the constants), or "new" when
    the mapping holds nothing: a connection never seen, or seen last as
    closed, is logged as coming from "new". *)
Theorem log_line_prev_state (calls : list ValueCall) (conn : Conn)
        (state : Z) :
  let line := logLine (runValues calls NewConnStateCounter) conn state in
  (forall a b : ConnState,
      stateName (stateValue a) = stateName (stateValue b) -> a = b) /\
  (forall v, stateName v = "unknown"%string <-> namedState v = None) /\
  new_state line = stateName state /\
  prev_state line =
    match lastState conn (named calls) with
    | Some StateClosed | None => "new"%string
    | Some s => stateName (stateValue s)
    end.
Proof.
  intros line. split; [|split; [|split]].
  - intros a b. destruct a, b; cbn; congruence.
  - intros v. destruct (namedState v) as [s|] eqn:Hv.
    + apply namedState_inv in Hv as ->. destruct s; cbn; split; discriminate.
    + split; [reflexivity|]. intros _.
      destruct v as [|p|p]; [discriminate Hv| |reflexivity].
      do 3 (try destruct p as [p|p|]; try discriminate Hv); reflexivity.
  - reflexivity.
  - subst line. unfold logLine.
    rewrite connStates_runValues, connStates_run.
    destruct (lastState conn (named calls)) as [[]|]; reflexivity.
Qed.

(** After the value 9 was passed for connection 5, its next report is
    logged as coming from "active"; the value 9 itself is logged as
    "unknown". *)
Lemma log_line_prev_state_witness :
  prev_state (logLine (runValues strayHistory NewConnStateCounter) 5%nat 2)
  = "active"%string /\
  (stateName 9 = "unknown"%string <-> namedState 9 = None).
Proof.
  destruct (log_line_prev_state strayHistory 5%nat 2)
    as (_ & Hunk & _ & Hprev).
  split; [rewrite Hprev; reflexivity|apply Hunk].
Defined.

End TrackerExtras.

(** ** The load generator: samples, percentiles and the stop channel *)

Section SampleFacts.

Import Loadgen.

Lemma tally_app (f : Pc -> Z) (ws1 ws2 : list Pc) :
  tally f (ws1 ++ ws2) = tally f ws1 + tally f ws2.
Proof.
  unfold tally, sumZ. induction ws1 as [|a ws1 IH]; cbn [app map fold_right].
  - lia.
  - rewrite IH. lia.
Qed.

Lemma tally_insert (f : Pc -> Z) (ws : list Pc) (w : nat) (p p' : Pc) :
  ws !! w = Some p ->
  tally f (<[w := p']> ws) = tally f ws - f p + f p'.
Proof.
  intros Hw.
  rewrite insert_take_drop by (eapply lookup_lt_Some; exact Hw).
  rewrite <- (take_drop_middle ws w p Hw) at 3.
  rewrite !tally_app.
  change (tally f (p' :: drop (S w) ws))
    with (f p' + tally f (drop (S w) ws)).
  change (tally f (p :: drop (S w) ws))
    with (f p + tally f (drop (S w) ws)).
  lia.
Qed.

Lemma tally_quiescent (wd : World) :
  quiescent wd = true -> tally awaitingAppend (workers wd) = 0.
Proof.
  unfold quiescent, tally, sumZ.
  induction (workers wd) as [|a ws IH]; cbn [forallb map fold_right];
    [reflexivity|].
  intros H. apply andb_true_iff in H as [Ha Hws].
  rewrite (IH Hws). destruct a; cbn in *; first [reflexivity|discriminate].
Qed.

Lemma tally_replicate (f : Pc -> Z) (n : nat) :
  f LoopTop = 0 -> tally f (replicate n LoopTop) = 0.
Proof.
  intros Hf. unfold tally, sumZ. induction n; cbn; [reflexivity|].
  rewrite Hf. exact IHn.
Qed.

Lemma sampled_step (n : Z) (wd : World) (e : Event) :
  sampled n wd -> sampled (n + 1) (step wd e).
Proof.
  unfold sampled. intros [H Hn]. destruct e as [|w r l]; cbn -[tally];
    [split; [exact H|lia]|].
  destruct (workers wd !! w) as [p|] eqn:Hw; [|split; [exact H|lia]].
  destruct (workerStep (ctxClosed wd) r l (stats wd) p) as [s' p'] eqn:Hs.
  cbn -[tally]. rewrite (tally_insert _ _ _ _ p' Hw).
  destruct wd as [[t sc ec tl ls] closed ws]; cbn -[tally] in *.
  generalize dependent (tally awaitingAppend ws). intros f H.
  destruct p as [|e0 l0|e0 l0|[e0|] l0|l0|]; cbn in Hs;
    try destruct closed; inversion Hs; subst; cbn;
    rewrite ?length_app; cbn [length]; split; try lia; unwrap; lia.
Qed.

Lemma sampled_exec (trace : list Event) (concurrency : nat) :
  sampled (Z.of_nat (length trace)) (exec trace (start concurrency)).
Proof.
  induction trace as [|e trace IH] using rev_ind.
  - unfold sampled. cbn -[tally].
    rewrite tally_replicate by reflexivity. split; [reflexivity|lia].
  - rewrite exec_snoc, length_app. cbn [length].
    replace (Z.of_nat (length trace + 1)) with (Z.of_nat (length trace) + 1)
      by lia.
    apply sampled_step, IH.
Qed.

Lemma traced_step (trace : list Event) (wd : World) (e : Event) :
  traced trace wd -> traced (trace ++ [e]) (step wd e).
Proof.
  intros [Hw Hl].
  assert (forall l, Exists (succeededWith l) trace ->
                    Exists (succeededWith l) (trace ++ [e])) as Hmono
    by (intros l H; apply Exists_app; left; exact H).
  assert (Forall (fun p => forall l, carried p = Some l ->
                     Exists (succeededWith l) (trace ++ [e])) (workers wd))
    as Hw' by (eapply Forall_impl; [exact Hw|]; cbn; auto).
  assert (Forall (fun l => Exists (succeededWith l) (trace ++ [e]))
                 (latencies (stats wd)))
    as Hl' by (eapply Forall_impl; [exact Hl|]; cbn; auto).
  destruct e as [|w r l]; [split; assumption|].
  unfold step. destruct (workers wd !! w) as [p|] eqn:Hp; [|split; assumption].
  assert (forall l0, carried p = Some l0 ->
                     Exists (succeededWith l0) (trace ++ [Sched w r l]))
    as Hcar.
  { rewrite Forall_forall in Hw'. apply Hw'.
    eapply list_elem_of_lookup_2. exact Hp. }
  assert (Exists (succeededWith l) (trace ++ [Sched w r l])
          \/ doRequest r <> None) as Hnew.
  { destruct (doRequest r) eqn:Hr; [right; discriminate|left].
    apply Exists_app. right. constructor. cbn. auto. }
  destruct (workerStep (ctxClosed wd) r l (stats wd) p) as [s' p'] eqn:Hs.
  destruct wd as [[t sc ec tl ls] closed ws]; cbn in *.
  assert ((forall l0, carried p' = Some l0 ->
                      Exists (succeededWith l0) (trace ++ [Sched w r l])) /\
          Forall (fun l0 => Exists (succeededWith l0)
                                   (trace ++ [Sched w r l])) (latencies s'))
    as [Hp' Hs'].
  { destruct p as [|e0 l0|e0 l0|[e0|] l0|l0|]; cbn in Hs, Hcar;
      [destruct closed|..]; inversion Hs; subst; cbn; split; auto;
      try (intros l1 H1; discriminate H1).
    - intros l1 H1. destruct (doRequest r) eqn:Hr; [discriminate|].
      injection H1 as <-. destruct Hnew; [assumption|congruence].
    - apply Forall_app. split; [exact Hl'|].
      constructor; [|constructor]. apply Hcar. reflexivity. }
  split; [|exact Hs']. cbn. apply Forall_insert; assumption.
Qed.

Lemma traced_exec (trace : list Event) (concurrency : nat) :
  traced trace (exec trace (start concurrency)).
Proof.
  induction trace as [|e trace IH] using rev_ind.
  - split; cbn.
    + apply Forall_replicate. intros l H. discriminate H.
    + constructor.
  - rewrite exec_snoc. apply traced_step, IH.
Qed.

Lemma quot_100_negative (x : Z) : Z.quot x 100 < 0 <-> x <= -100.
Proof.
  pose proof (Z.quot_rem' x 100) as Hq.
  destruct (Z_le_gt_dec 0 x) as [Hx|Hx].
  - pose proof (Z.rem_bound_pos x 100 Hx ltac:(lia)).
    pose proof (Z.quot_pos x 100 Hx ltac:(lia)). lia.
  - pose proof (Z.rem_bound_pos_neg x 100 ltac:(lia) ltac:(lia)). lia.
Qed.

Lemma quot_100_large (x n : Z) : 0 < n -> (n <= Z.quot x 100 <-> 100 * n <= x).
Proof.
  intros Hn. pose proof (Z.quot_rem' x 100) as Hq.
  destruct (Z_le_gt_dec 0 x) as [Hx|Hx].
  - pose proof (Z.rem_bound_pos x 100 Hx ltac:(lia)). lia.
  - pose proof (Z.rem_bound_pos_neg x 100 ltac:(lia) ltac:(lia)). lia.
Qed.

End SampleFacts.

Section LoadgenExtras.

Import Loadgen.

(** X6.  At every quiescent point of every interleaving, the number of
    latency samples recorded equals [successCount] (modulo 2^64; exactly
    while fewer than 2^62 actions have run): a sample is appended for each
    success and for nothing else. *)
Theorem samples_match_successes (concurrency : nat) (trace : list Event) :
  let wd := exec trace (start concurrency) in
  quiescent wd = true ->
  successCount (stats wd)
    = Int64.wrap (Z.of_nat (length (latencies (stats wd)))) /\
  (Z.of_nat (length trace) < 2 ^ 62 ->
   Z.of_nat (length (latencies (stats wd))) = successCount (stats wd)).
Proof.
  intros wd Hq.
  destruct (sampled_exec trace concurrency) as [Hs Hn]. fold wd in Hs, Hn.
  rewrite (tally_quiescent wd Hq), Z.add_0_r in Hs.
  split; [exact Hs|]. intros Hlen.
  change (2 ^ 62) with 4611686018427387904 in Hlen.
  rewrite Hs. symmetry. apply wrap_small.
  unfold Int64.in_range, Int64.min_int, Int64.max_int.
  change (2 ^ 63) with 9223372036854775808. lia.
Qed.

Lemma samples_match_successes_witness :
  Z.of_nat (length (latencies (stats (exec twoWorkers (start 2)))))
  = successCount (stats (exec twoWorkers (start 2))).
Proof.
  destruct (samples_match_successes 2 twoWorkers eq_refl) as [_ H].
  apply H. reflexivity.
Defined.

(** X7.  Whatever the interleaving, every latency in the sample slice was
    measured on a request of the trace for which [doRequest] returned nil:
    requests that fail, at the transport, while draining the body or with
    a status of 400 and above, never contribute a sample. *)
Theorem samples_come_from_successes (concurrency : nat)
        (trace : list Event) (latency : Z) :
  latency ∈ latencies (stats (exec trace (start concurrency))) ->
  Exists (succeededWith latency) trace.
Proof.
  intros Hin. destruct (traced_exec trace concurrency) as [_ Hl].
  rewrite Forall_forall in Hl. apply Hl, Hin.
Qed.

Lemma samples_come_from_successes_witness :
  Exists (succeededWith 7) twoWorkers.
Proof.
  apply (samples_come_from_successes 2 twoWorkers 7).
  vm_compute. left.
Defined.

(** X8.  Over the sorted samples [percentile] is monotone in [p]: for
    0 <= p <= q <= 100 the value for [p] is at most the value for [q], both
    lie between the smallest and the largest sample, [p] = 0 gives the
    smallest sample and [p] = 100 the largest. *)
Theorem percentile_monotone (samples : list Z) (p q : Z) :
  samples <> [] -> Z.of_nat (length samples) < 2 ^ 56 ->
  0 <= p <= q -> q <= 100 ->
  exists a b,
    percentile (sortSlice samples) p = Some a /\
    percentile (sortSlice samples) q = Some b /\
    minimum samples <= a /\ a <= b /\ b <= maximum samples /\
    percentile (sortSlice samples) 0 = Some (minimum samples) /\
    percentile (sortSlice samples) 100 = Some (maximum samples).
Proof.
  intros Hne Hlen Hpq Hq.
  assert (0 < length samples)%nat as Hpos
    by (destruct samples; [congruence|cbn; lia]).
  pose proof (sortSlice_sorted samples) as Hs.
  destruct (percentile_of_sortSlice samples p Hne ltac:(lia) Hlen)
    as (a & Ha & Pa).
  destruct (percentile_of_sortSlice samples q Hne ltac:(lia) Hlen)
    as (b & Hb & Pb).
  destruct (percentile_of_sortSlice samples 0 Hne ltac:(lia) Hlen)
    as (lo & Hlo & Plo).
  destruct (percentile_of_sortSlice samples 100 Hne ltac:(lia) Hlen)
    as (hi & Hhi & Phi).
  assert (forall x, x ∈ sortSlice samples <-> x ∈ samples) as Hperm
    by (intros x; rewrite (sortSlice_perm samples); reflexivity).
  assert (forall i x, sortSlice samples !! i = Some x -> x ∈ samples) as Hmem
    by (intros i x Hx; apply Hperm; eapply list_elem_of_lookup_2; exact Hx).
  assert (lo = minimum samples) as ->.
  { apply Z.le_antisymm; [|apply minimum_le; eapply Hmem; exact Hlo].
    pose proof (minimum_in samples Hne) as Hin. apply Hperm in Hin.
    apply list_elem_of_lookup_1 in Hin as [j Hj].
    apply (sorted_lookup_le _ Hs (rankIndex (length samples) 0) j);
      [|exact Hlo|exact Hj].
    unfold rankIndex. rewrite Z.mul_0_r. change (0 / 100) with 0. lia. }
  assert (hi = maximum samples) as ->.
  { apply Z.le_antisymm; [apply le_maximum; eapply Hmem; exact Hhi|].
    pose proof (maximum_in samples Hne) as Hin. apply Hperm in Hin.
    apply list_elem_of_lookup_1 in Hin as [j Hj].
    apply (sorted_lookup_le _ Hs j (rankIndex (length samples) 100));
      [|exact Hj|exact Hhi].
    apply lookup_lt_Some in Hj. rewrite sortSlice_length in Hj.
    unfold rankIndex. rewrite Z.div_mul by lia. lia. }
  exists a, b. split; [exact Pa|]. split; [exact Pb|].
  split; [apply minimum_le; eapply Hmem; exact Ha|].
  split; [|split; [apply le_maximum; eapply Hmem; exact Hb|auto]].
  apply (sorted_lookup_le _ Hs _ _ _ _
           (rankIndex_mono (length samples) p q Hpos Hpq) Ha Hb).
Qed.

Lemma percentile_monotone_witness :
  percentile (sortSlice tenSamples) 0 = Some (ms 1) /\
  percentile (sortSlice tenSamples) 100 = Some (ms 10).
Proof.
  destruct (percentile_monotone tenSamples 25 75)
    as (a & b & _ & _ & _ & _ & _ & Hlo & Hhi).
  - discriminate.
  - reflexivity.
  - lia.
  - lia.
  - rewrite Hlo, Hhi. split; reflexivity.
Defined.

(** X9.  [percentile] indexes without checking [p]: on a non-empty slice
    (the product [(n-1)*p] fitting in 64 bits) it panics with an index out
    of range exactly when [(n-1)*p <= -100] or [(n-1)*p >= 100*n].  So a
    [p] above 100 can panic, while a slightly negative [p], whose index
    truncates to 0, silently returns the first element. *)
Theorem percentile_panics_out_of_range (sorted : list Z) (p : Z) :
  sorted <> [] ->
  Z.of_nat (length sorted) < 2 ^ 56 ->
  Int64.in_range ((Z.of_nat (length sorted) - 1) * p) ->
  (percentile sorted p = None <->
   (Z.of_nat (length sorted) - 1) * p <= -100 \/
   100 * Z.of_nat (length sorted) <= (Z.of_nat (length sorted) - 1) * p) /\
  (-100 < (Z.of_nat (length sorted) - 1) * p < 0 ->
   percentile sorted p = sorted !! 0%nat).
Proof.
  intros Hne Hlen Hr.
  assert (0 < length sorted)%nat as Hpos
    by (destruct sorted; [congruence|cbn; lia]).
  set (n := Z.of_nat (length sorted)) in *.
  set (x := (n - 1) * p) in *.
  change (2 ^ 56) with 72057594037927936 in Hlen.
  assert (Int64.quot (Int64.mul (Int64.sub n 1) p) 100 = Z.quot x 100) as Hidx.
  { unfold Int64.quot, Int64.mul, Int64.sub.
    rewrite (wrap_small (n - 1)) by (unwrap; lia).
    fold x. rewrite (wrap_small x Hr). apply wrap_small.
    pose proof (Z.quot_rem' x 100) as Hq.
    unfold Int64.in_range, Int64.min_int, Int64.max_int in *.
    destruct (Z_le_gt_dec 0 x) as [Hx|Hx].
    - pose proof (Z.rem_bound_pos x 100 Hx ltac:(lia)). lia.
    - pose proof (Z.rem_bound_pos_neg x 100 ltac:(lia) ltac:(lia)). lia. }
  unfold percentile. fold n.
  destruct (Nat.eqb_spec (length sorted) 0) as [H0|_]; [lia|].
  rewrite Hidx.
  pose proof (quot_100_negative x) as Hneg.
  pose proof (quot_100_large x n ltac:(lia)) as Hbig.
  split.
  - destruct (Z.ltb_spec (Z.quot x 100) 0) as [Hlt|Hge].
    + split; [intros _; left; apply Hneg; exact Hlt|reflexivity].
    + rewrite lookup_ge_None. split.
      * intros Hle. right. apply Hbig. fold n. lia.
      * intros [Hl|Hl]; [apply Hneg in Hl; lia|].
        apply Hbig in Hl. unfold n in Hl. lia.
  - intros Hsmall.
    assert (Z.quot x 100 = 0) as ->.
    { pose proof (Z.quot_rem' x 100) as Hq.
      pose proof (Z.rem_bound_pos_neg x 100 ltac:(lia) ltac:(lia)). lia. }
    reflexivity.
Qed.

Lemma percentile_panics_out_of_range_witness :
  percentile [ms 1; ms 2; ms 3] 150 = None /\
  percentile [ms 1; ms 2; ms 3] (-49) = Some (ms 1).
Proof.
  destruct (percentile_panics_out_of_range [ms 1; ms 2; ms 3] 150)
    as [Hpanic _].
  - discriminate.
  - reflexivity.
  - split; discriminate.
  - destruct (percentile_panics_out_of_range [ms 1; ms 2; ms 3] (-49))
      as [_ Hfirst].
    + discriminate.
    + reflexivity.
    + split; discriminate.
    + split; [apply Hpanic; right; cbn; lia|].
      rewrite Hfirst by (cbn; lia). reflexivity.
Defined.

End LoadgenExtras.

Section StopChannel.

Import Loadgen.

Lemma mainRun_snoc (events : list StopEvent) (e : StopEvent) :
  mainRun (events ++ [e]) = mainStep (mainRun events) e.
Proof. unfold mainRun. rewrite fold_left_app. reflexivity. Qed.

Lemma mainStep_settled (p : Process) (e : StopEvent) :
  state p <> Running -> mainStep p e = p.
Proof. unfold mainStep. destruct (state p); congruence. Qed.

Lemma mainRun_settled (events : list StopEvent) (p : Process) :
  state p <> Running -> fold_left mainStep events p = p.
Proof.
  intros Hp. induction events as [|e events IH]; [reflexivity|].
  cbn [fold_left]. rewrite (mainStep_settled p e Hp). exact IH.
Qed.

Lemma orderly_run (events : list StopEvent) :
  ~ In DrainElapsed events -> orderly events (mainRun events).
Proof.
  induction events as [|e events IH] using rev_ind; intros Hno.
  - split; [discriminate|]. intros _. cbn. repeat split; auto; contradiction.
  - rewrite mainRun_snoc.
    assert (~ In DrainElapsed events) as Hno'
      by (intros H; apply Hno, in_or_app; left; exact H).
    assert (e <> DrainElapsed) as He
      by (intros ->; apply Hno, in_or_app; right; left; reflexivity).
    destruct (IH Hno') as [Hret Hrun].
    destruct (mainRun events) as [closed sg tg st]. cbn in *.
    destruct st; try congruence.
    + destruct (Hrun eq_refl) as (Hs & Ht & Hc & Hboth). subst closed.
      unfold mainStep, closeStop. cbn.
      destruct e; try congruence; destruct sg, tg; cbn in *;
        try discriminate; split; try discriminate; intros Hst;
        try discriminate; repeat split; auto;
        intros Hin; apply in_app_or in Hin as [Hin|[Hin|[]]];
        auto; try discriminate.
    + unfold mainStep. cbn. split; [discriminate|]. discriminate.
Qed.

Lemma single_run (events : list StopEvent) :
  ~ In SignalDelivered events \/ ~ In DurationElapsed events ->
  single events (mainRun events).
Proof.
  induction events as [|e events IH] using rev_ind; intros Hno.
  - repeat split; auto; discriminate.
  - rewrite mainRun_snoc.
    assert (~ In SignalDelivered events \/ ~ In DurationElapsed events)
      as Hno'.
    { destruct Hno as [H|H]; [left|right]; intros Hin; apply H, in_or_app;
        left; exact Hin. }
    assert ((e <> SignalDelivered /\ ~ In SignalDelivered events) \/
            (e <> DurationElapsed /\ ~ In DurationElapsed events)) as He.
    { destruct Hno as [H|H]; [left|right]; split;
        try (intros ->; apply H, in_or_app; right; left; reflexivity);
        intros Hin; apply H, in_or_app; left; exact Hin. }
    destruct (IH Hno') as (Hst & Hsg & Htg & Hcl).
    destruct (mainRun events) as [closed sg tg st]. cbn in *.
    unfold mainStep, closeStop. cbn.
    destruct st; try congruence.
    + specialize (Hcl eq_refl). subst closed.
      destruct He as [[He Hn]|[He Hn]];
        [specialize (Hsg Hn)|specialize (Htg Hn)]; subst;
        destruct e; try congruence; try destruct sg; try destruct tg;
        cbn; repeat split; try discriminate; auto;
        try (intros Hin; exfalso; apply Hin, in_or_app; right; left;
             reflexivity);
        try (intros Hin; apply Hsg; intros H'; apply Hin, in_or_app; left;
             exact H');
        try (intros Hin; apply Htg; intros H'; apply Hin, in_or_app; left;
             exact H').
    + cbn. repeat split; try discriminate.
      * intros Hin. apply Hsg. intros H'. apply Hin, in_or_app. left. exact H'.
      * intros Hin. apply Htg. intros H'. apply Hin, in_or_app. left. exact H'.
Qed.

(** X10.  [main] closes the stop channel from two goroutines without
    guarding against a second close.  If a signal is delivered and the
    duration elapses before [main] has returned, in either order, the
    second [close(ctx)] panics, whatever happens afterwards; if only one of
    the two ever happens, the channel is closed once and nothing panics. *)
Theorem stop_channel_closed_twice (before after : list StopEvent) :
  (In SignalDelivered before -> In DurationElapsed before ->
   ~ In DrainElapsed before ->
   state (mainRun (before ++ after)) = Panicked) /\
  (~ In SignalDelivered before \/ ~ In DurationElapsed before ->
   state (mainRun before) <> Panicked).
Proof.
  split.
  - intros Hs Ht Hno. destruct (orderly_run before Hno) as [Hret Hrun].
    assert (state (mainRun before) = Panicked) as Hp.
    { destruct (state (mainRun before)) eqn:Hst; try congruence.
      destruct (Hrun eq_refl) as (H1 & H2 & _ & Hboth).
      rewrite (H1 Hs), (H2 Ht) in Hboth. discriminate. }
    unfold mainRun in *. rewrite fold_left_app.
    rewrite mainRun_settled; [exact Hp|]. rewrite Hp. discriminate.
  - intros Hno. apply (single_run before Hno).
Qed.

Lemma stop_channel_closed_twice_witness :
  state (mainRun [DurationElapsed; SignalDelivered; DrainElapsed]) = Panicked
  /\ state (mainRun [DurationElapsed; DrainElapsed]) <> Panicked.
Proof.
  split.
  - apply (proj1 (stop_channel_closed_twice
                    [DurationElapsed; SignalDelivered] [DrainElapsed])).
    + right. left. reflexivity.
    + left. reflexivity.
    + intros [H|[H|[]]]; discriminate H.
  - apply (proj2 (stop_channel_closed_twice
                    [DurationElapsed; DrainElapsed] [])).
    left. intros [H|[H|[]]]; discriminate H.
Defined.

End StopChannel.

(** ** The slow-connection simulator: further properties *)

Section SimulatorFacts.

Import Slowloris.

(** With keep-open on, silent ticks never end the loop. *)
Lemma headerLoop_keepOpen (cfg : Config) (ts : list Tick) :
  KeepOpen cfg = true -> Forall silentTick ts ->
  forall (headerNum : Z) (s : Stats) (c : Wire) (h k : Z),
    headersSent s = Int64.add h k ->
    let r := headerLoop cfg headerNum ts s c in
    snd r = None /\
    headersSent (fst (fst r)) = Int64.add h (k + Z.of_nat (length ts)) /\
    length (writes (snd (fst r))) = (length (writes c) + length ts)%nat.
Proof.
  intros Hk Hts. induction Hts as [|t ts (Hc & Hp & Hw) _ IH];
    intros n s c h k Hh; cbn [headerLoop length].
  - cbn. rewrite Z.add_0_r. auto.
  - unfold headerTick. rewrite Hc, Hp, Hw, Hk.
    cbn [isTimeout negb connWrite andb].
    destruct (IH (Int64.add n 1) (addHeadersSent 1 s)
                 (mkWire (sent c ++ customHeader (Int64.add n 1) (tNow t))
                         (writes c ++ [customHeader (Int64.add n 1) (tNow t)]))
                 h (k + 1)) as (Hr & Hs & Hl).
    { cbn. rewrite Hh. apply add_assoc_const. }
    split; [exact Hr|]. split.
    + rewrite Hs. f_equal. lia.
    + rewrite Hl. cbn [writes]. rewrite length_app. cbn [length]. lia.
Qed.

Lemma headerTick_true (cfg : Config) (headerNum : Z) (t : Tick)
      (s : Stats) (c : Wire) :
  snd (headerTick cfg headerNum t s c) = Return true -> peerFault t.
Proof.
  unfold headerTick, peerFault.
  destruct (tCancelled t); [discriminate|].
  destruct (tPeek t) as [e|]; [|discriminate].
  destruct (isTimeout e) eqn:He; cbn [negb]; [|intros _; right; eauto].
  destruct (tWrite t); cbn [connWrite negb].
  - destruct (negb (KeepOpen cfg) && (10 <=? Int64.add headerNum 1));
      discriminate.
  - intros _. left. discriminate.
Qed.

Lemma headerLoop_true (cfg : Config) (ts : list Tick) :
  forall (headerNum : Z) (s : Stats) (c : Wire),
    snd (headerLoop cfg headerNum ts s c) = Some true -> Exists peerFault ts.
Proof.
  induction ts as [|t ts IH]; intros n s c; cbn [headerLoop];
    [discriminate|].
  pose proof (headerTick_true cfg n t s c) as Ht.
  destruct (headerTick cfg n t s c) as [[s' c'] [n'|b]]; cbn [fst snd] in *.
  - intros H. right. apply (IH _ _ _ H).
  - intros H. injection H as ->. left. apply Ht. reflexivity.
Qed.




(** Without wrap-around of [headerNum], the buffers written by the loop
    are the first custom headers of the ticks, numbered consecutively. *)
Lemma headerLoop_numbering (cfg : Config) (ts : list Tick) :
  forall (headerNum : Z) (s : Stats) (c : Wire),
    0 <= headerNum -> headerNum + Z.of_nat (length ts) < 2 ^ 62 ->
    exists j : nat,
      writes (snd (fst (headerLoop cfg headerNum ts s c)))
      = writes c ++ take j (customHeaders (headerNum + 1) ts).
Proof.
  change (2 ^ 62) with 4611686018427387904.
  induction ts as [|t ts IH]; intros n s c Hn Hlen; cbn [headerLoop].
  - exists 0%nat. cbn. rewrite app_nil_r. reflexivity.
  - cbn [length] in Hlen. unfold headerTick.
    assert (Int64.add n 1 = n + 1) as -> by (unwrap; lia).
    destruct (tCancelled t);
      [exists 0%nat; cbn; rewrite app_nil_r; reflexivity|].
    destruct (tPeek t) as [e|];
      [|exists 0%nat; cbn; rewrite app_nil_r; reflexivity].
    destruct (isTimeout e); cbn [negb];
      [|exists 0%nat; cbn; rewrite app_nil_r; reflexivity].
    destruct (tWrite t); cbn [connWrite negb].
    + destruct (negb (KeepOpen cfg) && (10 <=? n + 1)); cbn [fst snd writes].
      * exists 1%nat. cbn [customHeaders take]. rewrite take_0. reflexivity.
      * destruct (IH (n + 1) (addHeadersSent 1 s)
                     (mkWire (sent c ++ customHeader (n + 1) (tNow t))
                             (writes c ++ [customHeader (n + 1) (tNow t)]))
                     ltac:(lia) ltac:(lia)) as [j Hj].
        exists (S j). rewrite Hj. cbn [writes customHeaders take].
        rewrite <- app_assoc. reflexivity.
    + cbn [fst snd writes]. exists 1%nat. cbn [customHeaders take].
      rewrite take_0. reflexivity.
Qed.

(** What one pass of the worker loop does to the counters, in terms of the
    answers it was given: whether the dial was reached, whether it failed,
    and what [performSlowloris] returned. *)
Lemma workerIteration_counts (cfg : Config) (id : Z) (a : Attempt)
      (s : Stats) :
  let r := workerIteration cfg id a s in
  let s' := fst (fst r) in
  let o := if aCancelled a then 0
           else match aDial a with Some _ => 1 | None => 0 end in
  let f := if aCancelled a then 0
           else match aDial a with Some _ => 0 | None => 1 end in
  let c := if aCancelled a then 0
           else
             match aDial a with
             | Some sc =>
                 match snd (performSlowloris cfg id sc
                              (addActiveConns 1 (addTotalConns 1 s)) freshConn)
                 with
                 | Some true => 1
                 | _ => 0
                 end
             | None => 0
             end in
  Z.of_nat (length (option_list (snd (fst r)))) = o /\
  0 <= c <= o /\ 0 <= f /\ o + f <= 1 /\
  ((o = 0 /\ totalConns s' = totalConns s) \/
   (o = 1 /\ totalConns s' = Int64.add (totalConns s) 1)) /\
  ((c = 0 /\ closedByServer s' = closedByServer s) \/
   (c = 1 /\ closedByServer s' = Int64.add (closedByServer s) 1)) /\
  ((f = 0 /\ errors s' = errors s) \/
   (f = 1 /\ errors s' = Int64.add (errors s) 1)) /\
  ((snd r = InHeaderLoop /\ activeConns s' = Int64.add (activeConns s) 1) \/
   (snd r <> InHeaderLoop /\ o = 0 /\ activeConns s' = activeConns s) \/
   (snd r <> InHeaderLoop /\ o = 1 /\
    activeConns s' = Int64.add (Int64.add (activeConns s) 1) (-1))).
Proof.
  intros r s' o f c. subst r s' o f c.
  destruct (aCancelled a) eqn:Hc.
  - unfold workerIteration. rewrite Hc. cbn.
    repeat split; try lia; auto;
      try (right; left; repeat split; discriminate).
  - destruct (aDial a) as [sc|] eqn:Hd.
    + pose proof (workerIteration_connected cfg id a sc s Hc Hd)
        as (Ht & He & Ha & Hcl).
      unfold workerIteration in *. rewrite Hc, Hd in *.
      destruct (performSlowloris cfg id sc
                  (addActiveConns 1 (addTotalConns 1 s)) freshConn)
        as [[s2 c] [b|]]; cbn [fst snd option_list length] in *.
      * rewrite Ht, He, Ha, Hcl.
        split; [reflexivity|].
        split; [destruct b; lia|]. split; [lia|]. split; [lia|].
        split; [right; auto|].
        split; [destruct b; [right|left]; auto|].
        split; [left; auto|].
        right. right.
        destruct (aCancelledAfter a); repeat split; discriminate.
      * rewrite Ht, He, Ha, Hcl.
        split; [reflexivity|]. split; [lia|]. split; [lia|]. split; [lia|].
        split; [right; auto|]. split; [left; auto|]. split; [left; auto|].
        left. auto.
    + unfold workerIteration. rewrite Hc, Hd. cbn.
      repeat split; try lia; auto;
      try (right; left; repeat split; discriminate).
Qed.

End SimulatorFacts.

Section SimulatorExtras.

Import Slowloris.

(** X11.  With keep-open on (the default) a worker facing a peer that
    never answers and never closes does not leave the header loop on its
    own, however many ticks go by: after [n] ticks [performSlowloris] is
    still running, [3 + n] lines have been written and counted, and
    [closedByServer] has not moved; the worker is inside
    [performSlowloris] with its connection counted as active. *)
Theorem keep_open_never_gives_up (cfg : Config) (id : Z) (sc : ConnScript)
        (a : Attempt) (s : Stats) :
  KeepOpen cfg = true -> silentPeer sc ->
  let r := performSlowloris cfg id sc s freshConn in
  snd r = None /\
  headersSent (fst (fst r))
    = Int64.add (headersSent s) (3 + Z.of_nat (length (ticks sc))) /\
  length (writes (snd (fst r))) = (3 + length (ticks sc))%nat /\
  closedByServer (fst (fst r)) = closedByServer s /\
  (aCancelled a = false -> aDial a = Some sc ->
   snd (workerIteration cfg id a s) = InHeaderLoop /\
   closedByServer (fst (fst (workerIteration cfg id a s))) = closedByServer s /\
   activeConns (fst (fst (workerIteration cfg id a s)))
     = Int64.add (activeConns s) 1).
Proof.
  intros Hk (H1 & H2 & H3 & H4 & H5 & Hts) r.
  assert (forall s0 : Stats,
             let r0 := performSlowloris cfg id sc s0 freshConn in
             snd r0 = None /\
             headersSent (fst (fst r0))
               = Int64.add (headersSent s0) (3 + Z.of_nat (length (ticks sc)))
             /\ length (writes (snd (fst r0))) = (3 + length (ticks sc))%nat)
    as Hrun.
  { intros s0 r0. subst r0. unfold performSlowloris.
    rewrite H1, H2, H3, H4, H5. cbn [connWrite negb].
    match goal with
    | |- context [headerLoop cfg 0 (ticks sc) ?s1 ?c1] =>
        destruct (headerLoop_keepOpen cfg (ticks sc) Hk Hts 0 s1 c1
                    (headersSent s0) 3) as (Hr & Hh & Hl)
    end.
    { cbn. rewrite !add_assoc_const. reflexivity. }
    split; [exact Hr|]. split; [exact Hh|]. rewrite Hl. reflexivity. }
  destruct (Hrun s) as (Hr & Hh & Hl). fold r in Hr, Hh, Hl.
  split; [exact Hr|]. split; [exact Hh|]. split; [exact Hl|].
  split; [apply (performSlowloris_frame cfg id sc s freshConn)|].
  intros Hc Hd.
  pose proof (workerIteration_connected cfg id a sc s Hc Hd)
    as (_ & _ & Hact & Hcl).
  destruct (Hrun (addActiveConns 1 (addTotalConns 1 s))) as (Hr' & _ & _).
  rewrite Hr' in Hact, Hcl. split; [|split; assumption].
  unfold workerIteration. rewrite Hc, Hd.
  destruct (performSlowloris cfg id sc (addActiveConns 1 (addTotalConns 1 s))
                             freshConn) as [[s2 c] [b|]];
    cbn [snd] in *; [discriminate|reflexivity].
Qed.

Lemma keep_open_never_gives_up_witness :
  snd (performSlowloris defaultFlags 0 silentScript zeroStats freshConn) = None
  /\ headersSent (fst (fst (performSlowloris defaultFlags 0 silentScript
                              zeroStats freshConn))) = 15.
Proof.
  assert (silentPeer silentScript) as Hsilent
    by (repeat split; repeat constructor).
  destruct (keep_open_never_gives_up defaultFlags 0 silentScript
              (mkAttempt false None false) zeroStats eq_refl Hsilent)
    as (Hr & Hh & _).
  split; [exact Hr|]. rewrite Hh. reflexivity.
Defined.

(** X12.  [performSlowloris] reports the connection as closed by the
    server only on evidence: if it returns true, then one of the writes it
    made failed or one of its peeks failed with an error that is not a
    timeout.  Cancellation, a peek that succeeds and the keep-open limit
    never produce true. *)
Theorem closed_by_server_needs_fault (cfg : Config) (id : Z)
        (sc : ConnScript) (s : Stats) (c : Wire) :
  snd (performSlowloris cfg id sc s c) = Some true -> faulty sc.
Proof.
  unfold performSlowloris, faulty.
  destruct (wRequest sc) eqn:H1; cbn [connWrite negb];
    [|intros _; left; discriminate].
  destruct (cancelled1 sc); [discriminate|].
  destruct (wHost sc) eqn:H2; cbn [connWrite negb];
    [|intros _; right; left; discriminate].
  destruct (cancelled2 sc); [discriminate|].
  destruct (wUserAgent sc) eqn:H3; cbn [connWrite negb];
    [|intros _; right; right; left; discriminate].
  intros H. right. right. right. apply (headerLoop_true _ _ _ _ _ H).
Qed.

Lemma closed_by_server_needs_fault_witness : faulty resetAtThird.
Proof.
  apply (closed_by_server_needs_fault defaultFlags 3 resetAtThird zeroStats
           freshConn).
  reflexivity.
Defined.



(** X14.  Lines go out in a fixed order: on a fresh connection the buffers
    written are always a beginning of the sequence request line, Host,
    User-Agent, custom header 1, custom header 2, ..., each custom header
    carrying the clock reading of its tick (for fewer than 2^62 ticks, so
    that the header number does not wrap). *)
Theorem lines_in_order (cfg : Config) (id : Z) (sc : ConnScript)
        (s : Stats) :
  Z.of_nat (length (ticks sc)) < 2 ^ 62 ->
  let c := snd (fst (performSlowloris cfg id sc s freshConn)) in
  writes c = take (length (writes c))
                  (openingLines cfg id ++ customHeaders 1 (ticks sc)).
Proof.
  intros Hlen c.
  assert (exists j : nat,
             writes c = take j (openingLines cfg id
                                ++ customHeaders 1 (ticks sc))) as [j Hj].
  { subst c. unfold performSlowloris, openingLines.
    destruct (wRequest sc); cbn [connWrite negb fst snd writes freshConn app];
      [|exists 1%nat; reflexivity].
    destruct (cancelled1 sc); [exists 1%nat; reflexivity|].
    destruct (wHost sc); cbn [connWrite negb fst snd writes app];
      [|exists 2%nat; reflexivity].
    destruct (cancelled2 sc); [exists 2%nat; reflexivity|].
    destruct (wUserAgent sc); cbn [connWrite negb fst snd writes app];
      [|exists 3%nat; reflexivity].
    match goal with
    | |- context [headerLoop cfg 0 (ticks sc) ?s1 ?c1] =>
        destruct (headerLoop_numbering cfg (ticks sc) 0 s1 c1
                    ltac:(lia) ltac:(lia)) as [j Hj]
    end.
    exists (3 + j)%nat. rewrite Hj. reflexivity. }
  rewrite Hj. rewrite length_take.
  set (L := openingLines cfg id ++ customHeaders 1 (ticks sc)).
  destruct (Nat.le_gt_cases j (length L)) as [Hle|Hgt].
  - rewrite Nat.min_l by exact Hle. reflexivity.
  - rewrite Nat.min_r by lia. rewrite !take_ge by lia. reflexivity.
Qed.

Lemma lines_in_order_witness :
  writes (snd (fst (performSlowloris defaultFlags 7 cutOffScript zeroStats
                      freshConn)))
  = openingLines defaultFlags 7
    ++ [customHeader 1 1700000000000000001;
        customHeader 2 1700000001000000002;
        customHeader 3 1700000002000000003].
Proof.
  rewrite (lines_in_order defaultFlags 7 cutOffScript zeroStats)
    by reflexivity.
  reflexivity.
Defined.

(** X15.  Over any run of [slowlorisWorker] from 64-bit counters:
    [totalConns] moves by the number of dials that succeeded, which is the
    number of connections opened; [errors] by the number of dials that
    failed; [closedByServer] by the number of connections for which
    [performSlowloris] returned [true]; these numbers are those of the
    passes the worker went through, with no more closed than opened and no
    more dials than passes; and [activeConns] is back at its initial value
    whenever the worker is outside [performSlowloris], and one above it
    while inside: every connection opened is closed and uncounted again. *)
Theorem worker_counters_balance (cfg : Config) (id : Z)
        (attempts : list Attempt) (s : Stats) :
  inRange s ->
  let r := slowlorisWorker cfg id attempts s in
  let s' := fst (fst r) in
  let conns := snd (fst r) in
  let opened := dialsSucceeded cfg id attempts s in
  let failed := dialsFailed cfg id attempts s in
  let closed := closedByPeer cfg id attempts s in
  Z.of_nat (length conns) = opened /\
  0 <= closed <= opened /\ 0 <= failed /\
  opened + failed <= Z.of_nat (length attempts) /\
  totalConns s' = Int64.wrap (totalConns s + opened) /\
  closedByServer s' = Int64.wrap (closedByServer s + closed) /\
  errors s' = Int64.wrap (errors s + failed) /\
  activeConns s' = match snd r with
                   | InHeaderLoop => Int64.add (activeConns s) 1
                   | _ => activeConns s
                   end.
Proof.
  revert s. induction attempts as [|a rest IH]; intros s (Ha & Ht & Hc & He).
  - cbn. rewrite !Z.add_0_r, !wrap_small by assumption.
    repeat split; auto; lia.
  - cbn [slowlorisWorker dialsSucceeded dialsFailed closedByPeer length].
    pose proof (workerIteration_counts cfg id a s) as Hit. cbv zeta in Hit.
    cbv zeta.
    set (o := if aCancelled a then 0
              else match aDial a with Some _ => 1 | None => 0 end) in *.
    set (f := if aCancelled a then 0
              else match aDial a with Some _ => 0 | None => 1 end) in *.
    set (c := if aCancelled a then 0
              else
                match aDial a with
                | Some sc =>
                    match snd (performSlowloris cfg id sc
                                 (addActiveConns 1 (addTotalConns 1 s))
                                 freshConn)
                    with
                    | Some true => 1
                    | _ => 0
                    end
                | None => 0
                end) in *.
    clearbody o f c.
    destruct Hit as (Hlen & Hco & Hf & Hof & Et & Ec & Ee & Ea).
    destruct (workerIteration cfg id a s) as [[s1 oc] nx].
    cbn [fst snd] in *.
    destruct nx.
    + assert (inRange s1) as Hs1.
      { destruct Ea as [[Hx _]|[(_ & _ & Ea)|(_ & _ & Ea)]]; [discriminate| |];
          (split; [|split; [|split]]);
          [rewrite Ea; exact Ha
          |destruct Et as [[_ ->]|[_ ->]]; [exact Ht|apply wrap_in_range]
          |destruct Ec as [[_ ->]|[_ ->]]; [exact Hc|apply wrap_in_range]
          |destruct Ee as [[_ ->]|[_ ->]]; [exact He|apply wrap_in_range]
          |rewrite Ea; apply wrap_in_range
          |destruct Et as [[_ ->]|[_ ->]]; [exact Ht|apply wrap_in_range]
          |destruct Ec as [[_ ->]|[_ ->]]; [exact Hc|apply wrap_in_range]
          |destruct Ee as [[_ ->]|[_ ->]]; [exact He|apply wrap_in_range]]. }
      specialize (IH s1 Hs1). cbv zeta in IH.
      destruct (slowlorisWorker cfg id rest s1) as [[s2 cs] nx2].
      cbn [fst snd] in *.
      destruct IH as (H1 & H2 & H3 & H4 & H5 & H6 & H7 & H8).
      rewrite length_app, Nat2Z.inj_add, Hlen, H1, H5, H6, H7, H8.
      destruct Ea as [[Hx _]|[(_ & Ho & Ea)|(_ & Ho & Ea)]]; [discriminate| |];
        destruct Et as [[Ho' ->]|[Ho' ->]]; try lia;
        destruct Ec as [[Hc' ->]|[Hc' ->]]; try lia;
        destruct Ee as [[Hf' ->]|[Hf' ->]]; try lia;
        rewrite Ea;
        (split; [lia|]); (split; [lia|]); (split; [lia|]); (split; [lia|]);
        (split; [unwrap; lia|]); (split; [unwrap; lia|]);
        (split; [unwrap; lia|]);
        destruct nx2; unwrap; lia.
    + cbn [fst snd]. rewrite Hlen.
      destruct Ea as [[Hx _]|[(_ & Ho & Ea)|(_ & Ho & Ea)]]; [discriminate| |];
        destruct Et as [[Ho' ->]|[Ho' ->]]; try lia;
        destruct Ec as [[Hc' ->]|[Hc' ->]]; try lia;
        destruct Ee as [[Hf' ->]|[Hf' ->]]; try lia;
        rewrite Ea;
        (split; [lia|]); (split; [lia|]); (split; [lia|]); (split; [lia|]);
        (split; [unwrap; lia|]); (split; [unwrap; lia|]);
        (split; [unwrap; lia|]); unwrap; lia.
    + cbn [fst snd]. rewrite Hlen.
      destruct Ea as [[_ Ea]|[(Hx & _)|(Hx & _)]]; [|congruence|congruence].
      destruct Et as [[Ho' ->]|[Ho' ->]];
        destruct Ec as [[Hc' ->]|[Hc' ->]]; try lia;
        destruct Ee as [[Hf' ->]|[Hf' ->]]; try lia;
        rewrite Ea;
        (split; [lia|]); (split; [lia|]); (split; [lia|]); (split; [lia|]);
        (split; [unwrap; lia|]); (split; [unwrap; lia|]);
        (split; [unwrap; lia|]); reflexivity.
Qed.

(** Two refused dials, a connection the peer resets, a third refused dial:
    three errors, one connection closed by the peer, none left active. *)
Lemma worker_counters_balance_witness :
  errors (fst (fst (slowlorisWorker defaultFlags 0 refusedTwice zeroStats)))
  = 3 /\
  closedByServer
    (fst (fst (slowlorisWorker defaultFlags 0 refusedTwice zeroStats))) = 1 /\
  activeConns
    (fst (fst (slowlorisWorker defaultFlags 0 refusedTwice zeroStats))) = 0.
Proof.
  destruct (worker_counters_balance defaultFlags 0 refusedTwice zeroStats)
    as (_ & _ & _ & _ & _ & Hcl & Herr & Hact).
  - repeat split; discriminate.
  - rewrite Hcl, Herr, Hact. repeat split; vm_compute; reflexivity.
Defined.

End SimulatorExtras.

(** ** The demo server: what the request log records *)

Section ServerExtras.

Import Server.

Lemma sumZ_app (l1 l2 : list Z) :
  Loadgen.sumZ (l1 ++ l2) = Loadgen.sumZ l1 + Loadgen.sumZ l2.
Proof.
  unfold Loadgen.sumZ. induction l1 as [|a l1 IH]; cbn [app fold_right].
  - lia.
  - rewrite IH. lia.
Qed.

Lemma handle_snoc (calls : list WriterCall) (c : WriterCall)
      (rw : responseWriter) :
  handle (calls ++ [c]) rw = apply (handle calls rw) c.
Proof. unfold handle. rewrite fold_left_app. reflexivity. Qed.

Lemma lastHeader_snoc (calls : list WriterCall) (c : WriterCall) :
  lastHeader (calls ++ [c]) =
  match c with
  | CallWriteHeader code => Some code
  | CallWrite _ => lastHeader calls
  end.
Proof. unfold lastHeader. rewrite fold_left_app. reflexivity. Qed.

Lemma lastHeader_valid (calls : list WriterCall) (code : Z) :
  Forall validCode calls -> lastHeader calls = Some code ->
  100 <= code <= 999.
Proof.
  induction calls as [|c calls IH] using rev_ind; intros Hv Hl.
  - discriminate Hl.
  - apply Forall_app in Hv as [Hv Hc]. apply Forall_cons in Hc as [Hc _].
    rewrite lastHeader_snoc in Hl. destruct c as [code'|n].
    + injection Hl as <-. exact Hc.
    + apply IH; assumption.
Qed.

(** X16.  For any sequence of [WriteHeader] and [Write] calls a handler
    makes on the logging wrapper (with status codes net/http accepts),
    [bytesWritten] is the sum of the counts the wrapped writer returned,
    and the recorded status is the code of the last [WriteHeader] if there
    was one, 200 if there were only writes, and 0 if the handler wrote
    nothing at all. *)
Theorem logged_status_and_bytes (calls : list WriterCall) :
  Forall validCode calls ->
  let rw := handle calls newResponseWriter in
  bytesWritten rw = Int64.wrap (Loadgen.sumZ (map written calls)) /\
  status rw = match lastHeader calls with
              | Some code => code
              | None => if wroteBody calls then StatusOK else 0
              end.
Proof.
  induction calls as [|c calls IH] using rev_ind; intros Hv rw; subst rw.
  - split; reflexivity.
  - pose proof Hv as Hv0.
    apply Forall_app in Hv as [Hv Hc]. apply Forall_cons in Hc as [Hc _].
    destruct (IH Hv) as [Hb Hs].
    pose proof (lastHeader_valid calls) as Hval.
    rewrite handle_snoc, lastHeader_snoc. unfold wroteBody.
    rewrite existsb_app, map_app. fold (wroteBody calls).
    assert (Loadgen.sumZ (map written calls ++ map written [c])
            = Loadgen.sumZ (map written calls) + written c) as ->.
    { rewrite sumZ_app. cbn. lia. }
    destruct c as [code|n]; cbn [apply WriteHeader Write status bytesWritten
                                 written existsb].
    + split; [|reflexivity]. rewrite Hb, Z.add_0_r. reflexivity.
    + split; [rewrite Hb; unwrap; lia|].
      rewrite Hs, orb_true_r.
      destruct (lastHeader calls) as [code|] eqn:Hl.
      * specialize (Hval code Hv eq_refl).
        destruct (Z.eqb_spec code 0); [lia|reflexivity].
      * destruct (wroteBody calls); reflexivity.
Qed.

Lemma logged_status_and_bytes_witness :
  status (handle [CallWrite 5; CallWriteHeader 404; CallWrite 9]
                 newResponseWriter) = 404 /\
  bytesWritten (handle [CallWrite 5; CallWriteHeader 404; CallWrite 9]
                       newResponseWriter) = 14.
Proof.
  destruct (logged_status_and_bytes
              [CallWrite 5; CallWriteHeader 404; CallWrite 9])
    as [Hb Hs].
  - repeat constructor; cbn; lia.
  - split; [exact Hs|exact Hb].
Defined.

(** X17.  [sleepHandler] never sleeps for more than 30 seconds: the
    number of milliseconds is the parsed value when parsing succeeded and
    the value lies in 0..30000, 1000 when parsing failed or the value is
    negative, and 30000 when the value is larger; the duration is that
    number times 10^6 ns, without overflow.  When the request is cancelled
    first the handler writes nothing, so the request log shows status 0
    and 0 bytes; otherwise it writes "slept for <ms>ms" and the log shows
    200. *)
Theorem sleep_is_bounded (parsed : Z) (failed cancelled : bool) (n : Z) :
  let ms := sleepMillis parsed failed in
  0 <= ms <= 30000 /\
  sleepDuration parsed failed = ms * 1000000 /\
  (failed = false -> 0 <= parsed <= 30000 -> ms = parsed) /\
  (failed = true \/ parsed < 0 -> ms = 1000) /\
  (failed = false -> 30000 < parsed -> ms = 30000) /\
  sleepHandler parsed failed cancelled n newResponseWriter
  = if cancelled then (mkResponseWriter 0 0, None)
    else (mkResponseWriter 200 (Int64.add 0 n), Some (sleptMessage ms)).
Proof.
  intros ms. subst ms. unfold sleepDuration, sleepHandler, sleepMillis.
  assert (Int64.mul 1000 Millisecond = 1000 * 1000000) as H1 by reflexivity.
  assert (Int64.mul 30000 Millisecond = 30000 * 1000000) as H2
    by reflexivity.
  destruct failed; cbn [orb];
    [|destruct (Z.ltb_spec parsed 0) as [Hneg|Hpos]];
    try (change (30000 <? 1000) with false; cbn iota);
    try destruct (Z.ltb_spec 30000 parsed) as [Hbig|Hsmall];
    (split; [lia|]); (split; [first [exact H1|exact H2
                                    |unfold Millisecond; unwrap; lia]|]);
    (split; [intros; first [discriminate|lia]|]);
    (split; [intros [H|H]; first [discriminate|lia|reflexivity]|]);
    (split; [intros; first [discriminate|lia]|]);
    destruct cancelled; reflexivity.
Qed.

Lemma sleep_is_bounded_witness :
  sleepMillis 5000 false = 5000 /\ sleepMillis (-3) false = 1000.
Proof.
  destruct (sleep_is_bounded 5000 false false 17) as (_ & _ & Hid & _).
  destruct (sleep_is_bounded (-3) false false 17) as (_ & _ & _ & Hneg & _).
  split; [apply Hid; [reflexivity|lia]|apply Hneg; right; lia].
Defined.

End ServerExtras.
